(** * afti: the batch collater of [utils.py]

    A shallow embedding of [get_custom_collater] / [_collater] and
    [prepare_tokenizer], with the two collaborators the module is
    written against (a HuggingFace tokenizer and a numpy random
    generator) kept abstract behind interfaces.

    Conventions:
    - Python [str] is [string]; f-string interpolation of a [str] is
      concatenation ([+:+]).
    - Python [float] is IEEE binary64, i.e. Rocq's primitive [float].
    - the [batch] dict is a [gmap string value].
    - a 2D torch tensor is its list of rows together with its column
      count (so that the shape of a tensor without rows is defined).
    - the random generator is a shared mutable object: its state lives
      in the [world] threaded through every call, next to a ghost
      trace of the calls made on the collaborators. *)

From Stdlib Require Import Floats ZArith Lia Ascii DecimalString DecimalNat.
From stdpp Require Import base option list gmap strings.

Local Open Scope string_scope.
Local Open Scope list_scope.

(** ** Module constants (utils.py:15-27) *)

Definition IMAGE_DIM : nat := 32.
Definition IMAGE_LEN : nat := IMAGE_DIM * IMAGE_DIM.
Definition NUM_COLORS : nat := 512.

(** [f"{i:0>3}"]: the decimal digits of [i], right-aligned in a field of
    width 3 filled with the character 0; longer numbers are not cut. *)
Definition decimal (i : nat) : string :=
  NilZero.string_of_uint (Nat.to_uint i).

Fixpoint fill_string (n : nat) (c : string) : string :=
  match n with
  | O => ""
  | S k => c +:+ fill_string k c
  end.

Definition rjust (width : nat) (fillchar : string) (s : string) : string :=
  fill_string (width - String.length s) fillchar +:+ s.

Definition pixel_token (i : nat) : string :=
  "[" +:+ rjust 3 "0" (decimal i) +:+ "]".

Definition PIXEL_TOKENS : list string := map pixel_token (seq 0 NUM_COLORS).
Definition IMAGE_TOKEN : string := "[Image]".
Definition IMAGE_FIRST_TOKEN : string := "[ImageFirst]".
Definition TEXT_TOKEN : string := "[Text]".
Definition TEXT_FIRST_TOKEN : string := "[TextFirst]".

(** ** Python values the collater handles *)

(** Exceptions.  The [assert] of utils.py:53 raises [AssertionError]
    (the error the specification calls InvalidArgument); its message
    interpolates [p], which is what the constructor carries.  Anything
    raised inside a collaborator is [Foreign] and is never caught. *)
Inductive exn : Type :=
| AssertionError (p : float)
| Foreign (what : string).

Inductive result (A : Type) : Type :=
| Ok (a : A)
| Raise (e : exn).
Arguments Ok {A} a.
Arguments Raise {A} e.

(** A 2D tensor: rows and column count. *)
Record tensor2 (A : Type) : Type := Tensor2 {
  t_cols : nat;
  t_rows : list (list A)
}.
Arguments Tensor2 {A} _ _.
Arguments t_cols {A} _.
Arguments t_rows {A} _.

Definition shape {A} (t : tensor2 A) : nat * nat :=
  (length (t_rows t), t_cols t).

(** The invariant every torch tensor has: all rows as long as the
    column count says. *)
Definition tensor_wf {A} (t : tensor2 A) : Prop :=
  Forall (fun r => length r = t_cols t) (t_rows t).

(** [torch.zeros(size=shape, dtype=bool)] *)
Definition zeros (size : nat * nat) : tensor2 bool :=
  Tensor2 (snd size) (replicate (fst size) (replicate (snd size) false)).

(** What [tokenizer(prompts, return_tensors="pt", padding=True)]
    returns, restricted to the two entries the collater reads. *)
Record BatchEncoding : Type := {
  input_ids : tensor2 Z;
  attention_mask : tensor2 Z
}.

Inductive value : Type :=
| LongTensor2 (t : tensor2 Z)
| BoolTensor2 (t : tensor2 bool)
| LongTensor1 (v : list Z).

(** The [captions] field: [type(captions) is str] or a sequence. *)
Inductive Captions : Type :=
| CaptionStr (s : string)
| CaptionList (l : list string).

(** One element of [features]. *)
Record InputDataClass : Type := {
  palette_images : string;
  captions : Captions
}.

(** ** Slice assignment

    [row[start:stop] = v] on a 1D tensor, for non-negative bounds and
    step 1: both bounds are clamped to the length, an empty or inverted
    range writes nothing, and nothing is ever written past the end. *)
Definition slice_indices (len start stop : nat) : nat * nat :=
  let lo := start `min` len in
  let hi := stop `min` len in
  (lo, lo `max` hi).

Definition slice_assign {A} (row : list A) (start stop : nat) (v : A) : list A :=
  let '(lo, hi) := slice_indices (length row) start stop in
  take lo row ++ replicate (hi - lo) v ++ drop hi row.

(** ** Collaborators *)

(** [np.random.Generator], as far as the collater uses it: [random()]
    and [choice(seq)].  [choice] may raise (numpy does on an empty
    sequence). *)
Class RandomSource (G : Type) : Type := {
  rng_random : G -> float * G;
  rng_choice : list string -> G -> result string * G
}.

(** The tokenizer: [tokenize(text)] (no special tokens added),
    [__call__] on a list with [return_tensors="pt", padding=True], and
    [add_tokens] with the vocabulary it acts on. *)
Class Tokenizer (T : Type) : Type := {
  tokenize : T -> string -> result (list string);
  batch_encode : T -> list string -> result BatchEncoding;
  add_tokens : list string -> T -> T;
  get_vocab : T -> list (string * Z)
}.

(** ** Effects: the world, the trace, the monad *)

Inductive event : Type :=
| EvRandom (u : float)
| EvChoice (options : list string) (r : result string)
| EvTokenize (text : string)
| EvBatchEncode (prompts : list string).

Record world (G : Type) : Type := World {
  w_rng : G;
  w_trace : list event
}.
Arguments World {G} _ _.
Arguments w_rng {G} _.
Arguments w_trace {G} _.

Definition M (G A : Type) : Type := world G -> result A * world G.

Definition ret {G A} (a : A) : M G A := fun w => (Ok a, w).

Definition raise {G A} (e : exn) : M G A := fun w => (Raise e, w).

Definition bind {G A B} (m : M G A) (k : A -> M G B) : M G B :=
  fun w =>
    match m w with
    | (Ok a, w') => k a w'
    | (Raise e, w') => (Raise e, w')
    end.

Declare Scope py_scope.
Delimit Scope py_scope with py.
Notation "x <- m ;; k" := (bind m (fun x => k))
  (at level 100, m at next level, right associativity) : py_scope.

Definition emit {G} (w : world G) (s : G) (e : event) : world G :=
  World s (w_trace w ++ [e]).

Definition lift {G A} (e : event) (r : result A) : M G A :=
  fun w => (r, emit w (w_rng w) e).

(** Locals of one iteration of the loop of utils.py:62-84. *)
Record Iteration : Type := {
  coin_toss : bool;
  caption : string;
  prompt : string;
  image_start_position : nat
}.

(** utils.py:82, [1 if coin_toss else 0] *)
Definition kind (it : Iteration) : Z := if coin_toss it then 1%Z else 0%Z.

(** utils.py:67-71 *)
Definition compose_prompt (coin_toss : bool) (image caption : string) : string :=
  if coin_toss
  then TEXT_FIRST_TOKEN +:+ caption +:+ IMAGE_TOKEN +:+ image
  else IMAGE_FIRST_TOKEN +:+ image +:+ TEXT_TOKEN +:+ caption.

(** The three lists the loop appends to (utils.py:55-61, 82-84). *)
Record Lists : Type := {
  kinds : list Z;
  image_start_positions : list nat;
  prompts : list string
}.

Definition no_lists : Lists :=
  {| kinds := []; image_start_positions := []; prompts := [] |}.

Definition append (acc : Lists) (it : Iteration) : Lists :=
  {| kinds := kinds acc ++ [kind it];
     image_start_positions := image_start_positions acc ++ [image_start_position it];
     prompts := prompts acc ++ [prompt it] |}.

(** utils.py:92-93: rows and positions are zipped, so the shorter of
    the two decides how many rows are written. *)
Fixpoint fill_masks (rows : list (list bool)) (positions : list nat)
  : list (list bool) :=
  match rows, positions with
  | image_mask :: rows', image_start_position :: positions' =>
      slice_assign image_mask image_start_position
        (image_start_position + IMAGE_LEN) true
      :: fill_masks rows' positions'
  | _, _ => rows
  end.

(** utils.py:90-93 *)
Definition build_image_masks (size : nat * nat) (positions : list nat) : tensor2 bool :=
  let image_masks := zeros size in
  Tensor2 (t_cols image_masks) (fill_masks (t_rows image_masks) positions).

(** utils.py:87-96, the part of [_collater] after the tokenizer call:
    the four stores into [batch]. *)
Definition assemble (batch : gmap string value) (acc : Lists) (enc : BatchEncoding)
  : gmap string value :=
  let batch := <["input_ids" := LongTensor2 (input_ids enc)]> batch in
  let batch := <["attention_mask" := LongTensor2 (attention_mask enc)]> batch in
  let image_masks :=
    build_image_masks (shape (attention_mask enc)) (image_start_positions acc) in
  let batch := <["image_masks" := BoolTensor2 image_masks]> batch in
  let batch := <["kinds" := LongTensor1 (kinds acc)]> batch in
  batch.

(** Observations on rows: the number of True entries of a mask row
    ([row.sum()] on a bool tensor) and the number of real tokens of an
    attention-mask row. *)
Definition true_count (row : list bool) : nat :=
  length (filter (fun b => b = true) row).

Definition real_length (row : list Z) : Z := foldr Z.add 0%Z row.

(** utils.py:53, [0.0 <= p <= 1.0] *)
Definition p_in_range (p : float) : bool := ((0 <=? p) && (p <=? 1))%float.

Section Collater.
Context {G T : Type} `{RandomSource G} `{Tokenizer T}.

(** [rng.random()] *)
Definition random : M G float :=
  fun w => let '(u, s) := rng_random (w_rng w) in (Ok u, emit w s (EvRandom u)).

(** [rng.choice(options)] *)
Definition choice (options : list string) : M G string :=
  fun w => let '(r, s) := rng_choice options (w_rng w) in
           (r, emit w s (EvChoice options r)).

(** The two values [get_custom_collater] closes over besides [rng]. *)
Variable tokenizer : T.
Variable p : float.

(** utils.py:65 *)
Definition resolve_caption (captions : Captions) : M G string :=
  match captions with
  | CaptionStr s => ret s
  | CaptionList l => choice l
  end.

(** utils.py:73-80; the tokenizer is only called on the text-first
    branch of the conditional expression. *)
Definition compute_start (coin_toss : bool) (caption : string) : M G nat :=
  (if coin_toss
   then tokens <- lift (EvTokenize caption) (tokenize tokenizer caption) ;;
        ret (3 + length tokens)
   else ret 2)%py.

(** The loop body, utils.py:63-80. *)
Definition iteration (image : string) (captions : Captions) : M G Iteration :=
  (u <- random ;;
   let coin_toss := (1 - p <? u)%float in
   caption <- resolve_caption captions ;;
   let prompt := compose_prompt coin_toss image caption in
   image_start_position <- compute_start coin_toss caption ;;
   ret {| coin_toss := coin_toss; caption := caption; prompt := prompt;
          image_start_position := image_start_position |})%py.

(** [for image, captions in zip(batch_images, batch_captions): ...] *)
Fixpoint loop (pairs : list (string * Captions)) (acc : Lists) : M G Lists :=
  match pairs with
  | [] => ret acc
  | (image, captions) :: rest =>
      (it <- iteration image captions ;;
       loop rest (append acc it))%py
  end.

(** utils.py:36-98 *)
Definition _collater (features : list InputDataClass) : M G (gmap string value) :=
  let batch : gmap string value := ∅ in
  if negb (p_in_range p) then raise (AssertionError p) else
  let batch_images := map palette_images features in
  let batch_captions := map captions features in
  (acc <- loop (zip batch_images batch_captions) no_lists ;;
   enc <- lift (EvBatchEncode (prompts acc)) (batch_encode tokenizer (prompts acc)) ;;
   ret (assemble batch acc enc))%py.

End Collater.

(** utils.py:33-100: the closure is [_collater] with [tokenizer] and [p]
    fixed; [rng] is the generator held by the world. *)
Definition get_custom_collater {G T} `{RandomSource G} `{Tokenizer T}
    (tokenizer : T) (p : float) : list InputDataClass -> M G (gmap string value) :=
  _collater tokenizer p.

(** ** [prepare_tokenizer] (utils.py:103-107)

    The tokenizer is an object: [add_tokens] mutates it in place and the
    function returns the reference it was given.  Objects live in a
    heap indexed by references. *)
Definition ref : Type := nat.

Definition prepare_tokenizer {T} `{Tokenizer T}
    (tokenizer : ref) (h : gmap ref T) : ref * gmap ref T :=
  let h := alter (add_tokens PIXEL_TOKENS) tokenizer h in
  let h := alter (add_tokens [IMAGE_FIRST_TOKEN; TEXT_FIRST_TOKEN;
                              IMAGE_TOKEN; TEXT_TOKEN]) tokenizer h in
  (tokenizer, h).

(** ** Vocabulary of the statements

    Ghost definitions: none of them is code of [utils.py]; they name
    what the properties below talk about. *)

(** The pairs the loop iterates over (utils.py:58-62). *)
Definition pairs_of (features : list InputDataClass) : list (string * Captions) :=
  zip (map palette_images features) (map captions features).

(** What one iteration adds to the trace: the draw, the choice when the
    captions are a sequence, the tokenizer call on the text-first
    branch. *)
Definition iteration_events (u : float) (captions : Captions) (it : Iteration)
  : list event :=
  EvRandom u
  :: match captions with
     | CaptionStr _ => []
     | CaptionList l => [EvChoice l (Ok (caption it))]
     end
  ++ (if coin_toss it then [EvTokenize (caption it)] else []).
Arguments iteration_events : simpl never.

(** [later w w']: the world [w'] is reached from [w] by further calls. *)
Definition later {G} (w w' : world G) : Prop :=
  w_trace w `prefix_of` w_trace w'.

(** The draws recorded in a stretch of trace. *)
Definition draws_of (evs : list event) : list float :=
  omap (fun e => match e with EvRandom u => Some u | _ => None end) evs.

(** The events of [w'] that are not yet in [w]. *)
Definition events_since {G} (w w' : world G) : list event :=
  drop (length (w_trace w)) (w_trace w').

(** A draw of a uniform generator on the half-open unit interval. *)
Definition in_unit_interval (u : float) : bool := ((0 <=? u) && (u <? 1))%float.

Section Semantics.
Context {G T : Type} `{RandomSource G} `{Tokenizer T}.
Variable tokenizer : T.
Variable p : float.

(** The caption an example resolves to: the string itself, or a value
    the generator's [choice] returns on the sequence. *)
Definition resolved (captions : Captions) (c : string) : Prop :=
  match captions with
  | CaptionStr s => c = s
  | CaptionList l => exists g : G, fst (rng_choice l g) = Ok c
  end.

(** Everything one successful iteration establishes, [u] being the
    value it drew. *)
Record iteration_post (image : string) (captions : Captions)
    (w : world G) (u : float) (it : Iteration) (w' : world G) : Prop := {
  post_coin : coin_toss it = (1 - p <? u)%float;
  post_caption : resolved captions (caption it);
  post_prompt : prompt it = compose_prompt (coin_toss it) image (caption it);
  post_start :
    if coin_toss it
    then exists tokens, tokenize tokenizer (caption it) = Ok tokens /\
                        image_start_position it = 3 + length tokens
    else image_start_position it = 2;
  post_trace : w_trace w' = w_trace w ++ iteration_events u captions it
}.

(** The iterations of the loop, one after the other. *)
Inductive runs : list (string * Captions) -> world G ->
                 list Iteration -> world G -> Prop :=
| runs_nil w : runs [] w [] w
| runs_cons image captions rest w it w1 its w' :
    iteration tokenizer p image captions w = (Ok it, w1) ->
    runs rest w1 its w' ->
    runs ((image, captions) :: rest) w (it :: its) w'.

End Semantics.

(** The tokens [prepare_tokenizer] registers, in order. *)
Definition MARKER_TOKENS : list string :=
  PIXEL_TOKENS ++ [IMAGE_FIRST_TOKEN; TEXT_FIRST_TOKEN; IMAGE_TOKEN; TEXT_TOKEN].

(** A token is in the vocabulary. *)
Definition has_token {T} `{Tokenizer T} (t : T) (x : string) : Prop :=
  x ∈ (get_vocab t).*1.

(** The object after the two [add_tokens] calls of utils.py:105-106. *)
Definition prepared {T} `{Tokenizer T} (t : T) : T :=
  add_tokens [IMAGE_FIRST_TOKEN; TEXT_FIRST_TOKEN; IMAGE_TOKEN; TEXT_TOKEN]
             (add_tokens PIXEL_TOKENS t).

(** ** Vocabulary of the further properties *)

(** The character of a decimal digit. *)
Definition digit (n : nat) : Ascii.ascii := Ascii.ascii_of_nat (48 + n).

(** Reading a pixel token back: the digits between the brackets, as a
    number.  Not code of [utils.py]; it is how distinct indices are
    told apart. *)
Fixpoint digits_to_bracket (s : string) : option Decimal.uint :=
  match s with
  | EmptyString => None
  | String c rest =>
      if Ascii.eqb c "]"%char
      then match rest with EmptyString => Some Decimal.Nil | _ => None end
      else uint_of_char c (digits_to_bracket rest)
  end.

Definition pixel_index (s : string) : option nat :=
  match s with
  | String c rest =>
      if Ascii.eqb c "["%char then Nat.of_uint <$> digits_to_bracket rest else None
  | EmptyString => None
  end.

(** The calls recorded in a stretch of trace, by collaborator method. *)
Definition tokenized_of (evs : list event) : list string :=
  omap (fun e => match e with EvTokenize c => Some c | _ => None end) evs.

Definition choices_of (evs : list event) : list (list string) :=
  omap (fun e => match e with EvChoice l _ => Some l | _ => None end) evs.

Definition encoded_of (evs : list event) : list (list string) :=
  omap (fun e => match e with EvBatchEncode ps => Some ps | _ => None end) evs.

(** The sequence [rng.choice] is called on, when [captions] is not a
    [str]. *)
Definition sequence_of (captions : Captions) : option (list string) :=
  match captions with
  | CaptionStr _ => None
  | CaptionList l => Some l
  end.

(** The caption [tokenizer.tokenize] is called on, when the iteration
    is text-first. *)
Definition tokenized_caption (it : Iteration) : option string :=
  if coin_toss it then Some (caption it) else None.

(** The collaborator call an exception comes from: the event is the
    call, the exception is what that call raised. *)
Definition raised_by {T} `{Tokenizer T} (tokenizer : T) (ev : event) (e : exn) : Prop :=
  match ev with
  | EvRandom _ => False
  | EvChoice _ r => r = Raise e
  | EvTokenize c => tokenize tokenizer c = Raise e
  | EvBatchEncode ps => batch_encode tokenizer ps = Raise e
  end.

(** A computation that reads the world only through the generator: from
    two worlds with the same generator state it returns the same
    result, leaves the same generator state and records the same new
    events. *)
Definition trace_blind {G A} (m : M G A) : Prop :=
  forall w1 w2 : world G,
    w_rng w1 = w_rng w2 ->
    fst (m w1) = fst (m w2) /\
    w_rng (snd (m w1)) = w_rng (snd (m w2)) /\
    exists evs : list event,
      w_trace (snd (m w1)) = w_trace w1 ++ evs /\
      w_trace (snd (m w2)) = w_trace w2 ++ evs.

(** ** A small executable instance of the two collaborators

    A scripted generator (the draws and the picks are given in advance)
    and a tokenizer whose vocabulary is the characters plus a list of
    added atomic tokens.  They make the embedding runnable on concrete
    batches. *)
Module Demo.

Record script : Type := {
  draws : list float;
  picks : list nat
}.

#[export] Instance script_source : RandomSource script := {
  rng_random g :=
    match draws g with
    | u :: rest => (u, {| draws := rest; picks := picks g |})
    | [] => (0%float, g)
    end;
  rng_choice options g :=
    match options with
    | [] => (Raise (Foreign "ValueError"), g)
    | x :: _ =>
        (Ok (nth (hd 0 (picks g) mod length options) options x),
         {| draws := draws g; picks := tl (picks g) |})
    end
}.

(** [strip_prefix t s]: what is left of [s] after its prefix [t]. *)
Fixpoint strip_prefix (t s : string) : option string :=
  match t, s with
  | EmptyString, _ => Some s
  | String a t', String b s' =>
      if Ascii.eqb a b then strip_prefix t' s' else None
  | String _ _, EmptyString => None
  end.

Fixpoint first_match (added : list string) (s : string) : option (string * string) :=
  match added with
  | [] => None
  | t :: added' =>
      match strip_prefix t s with
      | Some rest => Some (t, rest)
      | None => first_match added' s
      end
  end.

Fixpoint scan (fuel : nat) (added : list string) (s : string) : list string :=
  match fuel, s with
  | S n, String c s' =>
      match first_match added s with
      | Some (String a t, rest) => String a t :: scan n added rest
      | _ => String c EmptyString :: scan n added s'
      end
  | _, _ => []
  end.

Definition bos_token_id : Z := 2.
Definition pad_token_id : Z := 1.

Fixpoint index_of (x : string) (l : list string) : option nat :=
  match l with
  | [] => None
  | y :: l' => if String.eqb x y then Some 0 else S <$> index_of x l'
  end.

Definition token_id (added : list string) (tok : string) : Z :=
  match index_of tok added, tok with
  | Some i, _ => 50265 + Z.of_nat i
  | None, String c _ => 4 + Z.of_N (Ascii.N_of_ascii c)
  | None, EmptyString => 3
  end.

Definition encode (added : list string) (s : string) : list Z :=
  bos_token_id :: map (token_id added) (scan (String.length s) added s).

Definition pad_to {A} (width : nat) (filler : A) (row : list A) : list A :=
  row ++ replicate (width - length row) filler.

Definition encode_batch (added : list string) (texts : list string) : BatchEncoding :=
  let rows := map (encode added) texts in
  let width := foldr Nat.max 0 (map length rows) in
  {| input_ids := Tensor2 width (map (pad_to width pad_token_id) rows);
     attention_mask :=
       Tensor2 width
         (map (fun r => pad_to width 0%Z (replicate (length r) 1%Z)) rows) |}.

Definition register (acc : list string) (x : string) : list string :=
  if bool_decide (x ∈ acc) then acc else acc ++ [x].

#[export] Instance vocab_tokenizer : Tokenizer (list string) := {
  tokenize added s := Ok (scan (String.length s) added s);
  batch_encode added texts := Ok (encode_batch added texts);
  add_tokens new_tokens added := foldl register added new_tokens;
  get_vocab added :=
    zip added (map (fun i => (50265 + Z.of_nat i)%Z) (seq 0 (length added)))
}.

(** A tokenizer that knows the structural tokens and the colours the
    images below use. *)
Definition tok : list string :=
  add_tokens [IMAGE_FIRST_TOKEN; TEXT_FIRST_TOKEN; IMAGE_TOKEN; TEXT_TOKEN]
             (add_tokens (map pixel_token [3; 7; 12; 45; 99; 300]) []).

(** An image of [IMAGE_LEN] pixel tokens. *)
Definition image_of (colour : nat) : string :=
  fill_string IMAGE_LEN (pixel_token colour).

Definition start (us : list float) (ks : list nat) : world script :=
  World {| draws := us; picks := ks |} [].

(** A batch of two examples, one with a single caption and one with a
    sequence of captions. *)
Definition cat : InputDataClass :=
  {| palette_images := "[012][045]"; captions := CaptionStr "cat" |}.
Definition dog : InputDataClass :=
  {| palette_images := "[003][099]"; captions := CaptionList ["a dog"; "dog"] |}.
Definition features : list InputDataClass := [cat; dog].

(** With [p = 0.5] and the draws 0.25 and 0.75 the first example is
    image-first and the second text-first; the pick selects the
    first caption of the second example, which makes its row the
    longer one, so the first row is padded. *)
Definition world0 : world script := start [0.25; 0.75]%float [0].

Definition lists1 : Lists :=
  {| kinds := [0; 1]%Z;
     image_start_positions := [2; 8];
     prompts := ["[ImageFirst][012][045][Text]cat";
                 "[TextFirst]a dog[Image][003][099]"] |}.

Definition world1 : world script :=
  World {| draws := []; picks := [] |}
        [EvRandom 0.25; EvRandom 0.75;
         EvChoice ["a dog"; "dog"] (Ok "a dog"); EvTokenize "a dog"].

Definition encoding1 : BatchEncoding := encode_batch tok (prompts lists1).
Definition batch1 : gmap string value := assemble ∅ lists1 encoding1.
Definition world2 : world script :=
  emit world1 (w_rng world1) (EvBatchEncode (prompts lists1)).

(** The same batch with [p = 0.0]: both examples image-first. *)
Definition lists0 : Lists :=
  {| kinds := [0; 0]%Z;
     image_start_positions := [2; 2];
     prompts := ["[ImageFirst][012][045][Text]cat";
                 "[ImageFirst][003][099][Text]a dog"] |}.
Definition batch0 : gmap string value :=
  assemble ∅ lists0 (encode_batch tok (prompts lists0)).
Definition world3 : world script :=
  World {| draws := []; picks := [] |}
        [EvRandom 0.25; EvRandom 0.75;
         EvChoice ["a dog"; "dog"] (Ok "a dog");
         EvBatchEncode (prompts lists0)].

(** The same two examples with images of [IMAGE_LEN] pixel tokens. *)
Definition full_features : list InputDataClass :=
  [ {| palette_images := image_of 7; captions := CaptionStr "cat" |};
    {| palette_images := image_of 300;
       captions := CaptionList ["a dog"; "dog"] |} ].
Definition full_lists : Lists :=
  {| kinds := [0; 1]%Z;
     image_start_positions := [2; 8];
     prompts := [compose_prompt false (image_of 7) "cat";
                 compose_prompt true (image_of 300) "a dog"] |}.
Definition full_encoding : BatchEncoding := encode_batch tok (prompts full_lists).
Definition full_batch : gmap string value := assemble ∅ full_lists full_encoding.
Definition full_world : world script :=
  emit world1 (w_rng world1) (EvBatchEncode (prompts full_lists)).

(** The scenario of two short images, whose rows are narrower than
    the span of the mask. *)
Definition short_features : list InputDataClass :=
  [ {| palette_images := "[012][045]"; captions := CaptionStr "cat" |};
    {| palette_images := "[003][099]"; captions := CaptionStr "dog" |} ].
Definition short_world0 : world script := start [0.5; 0.5]%float [].
Definition short_lists : Lists :=
  {| kinds := [0; 0]%Z;
     image_start_positions := [2; 2];
     prompts := ["[ImageFirst][012][045][Text]cat";
                 "[ImageFirst][003][099][Text]dog"] |}.
Definition short_world1 : world script :=
  World {| draws := []; picks := [] |} [EvRandom 0.5; EvRandom 0.5].

(** A batch whose second example has an empty sequence of captions,
    on which the generator's [choice] raises. *)
Definition bad_features : list InputDataClass :=
  [cat; {| palette_images := "[003][099]"; captions := CaptionList [] |}].
Definition bad_world : world script :=
  World {| draws := []; picks := [0] |}
        [EvRandom 0.25; EvRandom 0.75; EvChoice [] (Raise (Foreign "ValueError"))].

(** [p = 1.0] with a first draw of exactly 0.0. *)
Definition zero_draw_world0 : world script := start [0; 0.5]%float [0].
Definition zero_draw_world1 : world script :=
  World {| draws := []; picks := [] |}
        [EvRandom 0; EvRandom 0.5;
         EvChoice ["a dog"; "dog"] (Ok "a dog"); EvTokenize "a dog";
         EvBatchEncode (prompts lists1)].

(** The two examples collated one after the other, as two batches. *)
Definition run_cat : result (gmap string value) * world script :=
  _collater tok 0.5%float [cat] world0.
Definition batch_cat : gmap string value :=
  match fst run_cat with Ok b => b | Raise _ => ∅ end.
Definition run_dog : result (gmap string value) * world script :=
  _collater tok 0.5%float [dog] (snd run_cat).
Definition batch_dog : gmap string value :=
  match fst run_dog with Ok b => b | Raise _ => ∅ end.

End Demo.

(** * Properties *)

(** ** Comparisons of binary64 floats *)

Section FloatOrder.
Local Open Scope float_scope.

Lemma SFcompare_antisym (x y : spec_float) :
  SFcompare y x = CompOpp <$> SFcompare x y.
Proof.
  destruct x as [sx|sx| |sx mx ex], y as [sy|sy| |sy my ey]; simpl;
    try reflexivity;
    try (destruct sx; reflexivity);
    try (destruct sy; reflexivity);
    try (destruct sx, sy; reflexivity).
  destruct sx, sy; simpl; try reflexivity;
    rewrite (Z.compare_antisym ey ex);
    destruct (ey ?= ex)%Z eqn:E; simpl; try reflexivity;
    rewrite (ZC4 my mx); now destruct (Pos.compare_cont Eq mx my).
Qed.

Lemma ltb_asym (x y : float) : (x <? y) = true -> (y <? x) = false.
Proof.
  rewrite !ltb_spec. unfold SFltb.
  rewrite (SFcompare_antisym (Prim2SF x) (Prim2SF y)).
  destruct (SFcompare (Prim2SF x) (Prim2SF y)) as [[]|]; simpl; congruence.
Qed.

Lemma ltb_not_leb (x y : float) : (x <? y) = true -> (y <=? x) = false.
Proof.
  rewrite ltb_spec, leb_spec. unfold SFltb, SFleb.
  rewrite (SFcompare_antisym (Prim2SF x) (Prim2SF y)).
  destruct (SFcompare (Prim2SF x) (Prim2SF y)) as [[]|]; simpl; congruence.
Qed.

(** Outside the closed interval, the assertion's condition is false. *)
Lemma outside_not_in_range (p : float) :
  (p <? 0) = true \/ (1 <? p) = true -> p_in_range p = false.
Proof.
  unfold p_in_range. intros [Hlt|Hgt].
  - now rewrite (ltb_not_leb _ _ Hlt).
  - rewrite (ltb_not_leb _ _ Hgt). apply andb_false_r.
Qed.
End FloatOrder.

(** ** Slice assignment and the mask rows *)

Section Slices.
Context {A : Type}.
Implicit Types (row : list A) (v : A).

Lemma slice_indices_bounds (len start stop : nat) :
  let '(lo, hi) := slice_indices len start stop in
  lo = start `min` len /\ hi = lo `max` (stop `min` len) /\ lo <= hi <= len.
Proof. unfold slice_indices. lia. Qed.

Lemma length_slice_assign row start stop v :
  length (slice_assign row start stop v) = length row.
Proof.
  unfold slice_assign, slice_indices.
  rewrite !length_app, length_take, length_replicate, length_drop. lia.
Qed.

Lemma lookup_slice_assign row start stop v (j : nat) :
  j < length row ->
  slice_assign row start stop v !! j =
    if bool_decide (start <= j < stop) then Some v else row !! j.
Proof.
  intros Hj. unfold slice_assign, slice_indices.
  set (lo := start `min` length row).
  set (hi := lo `max` (stop `min` length row)).
  assert (Hlo : length (take lo row) = lo) by (rewrite length_take; lia).
  destruct (decide (j < lo)) as [Hlt|Hge].
  - rewrite lookup_app_l by lia. rewrite lookup_take_lt by lia.
    rewrite bool_decide_eq_false_2 by lia. reflexivity.
  - rewrite lookup_app_r by lia. rewrite Hlo.
    destruct (decide (j < hi)) as [Hin|Hout].
    + rewrite lookup_app_l by (rewrite length_replicate; lia).
      rewrite lookup_replicate_2 by lia.
      rewrite bool_decide_eq_true_2 by lia. reflexivity.
    + rewrite lookup_app_r by (rewrite length_replicate; lia).
      rewrite length_replicate, lookup_drop.
      rewrite bool_decide_eq_false_2 by lia.
      f_equal. lia.
Qed.
End Slices.

Lemma true_count_app (l1 l2 : list bool) :
  true_count (l1 ++ l2) = true_count l1 + true_count l2.
Proof. unfold true_count. now rewrite filter_app, length_app. Qed.

Lemma true_count_replicate (n : nat) (b : bool) :
  true_count (replicate n b) = if b then n else 0.
Proof.
  unfold true_count. induction n as [|n IH]; cbn [replicate].
  - now destruct b.
  - destruct b.
    + rewrite filter_cons_True by reflexivity. cbn [length]. now rewrite IH.
    + rewrite filter_cons_False by discriminate. exact IH.
Qed.

Lemma true_count_le_length (row : list bool) : true_count row <= length row.
Proof. unfold true_count. apply length_filter. Qed.

(** A row of [zeros] after the slice assignment of utils.py:93. *)
Lemma true_count_slice_zeros (width start stop : nat) :
  true_count (slice_assign (replicate width false) start stop true) =
    (stop `min` width) - (start `min` width).
Proof.
  unfold slice_assign, slice_indices. rewrite length_replicate.
  rewrite take_replicate, drop_replicate.
  rewrite !true_count_app, !true_count_replicate. lia.
Qed.

Lemma length_fill_masks (rows : list (list bool)) (positions : list nat) :
  length (fill_masks rows positions) = length rows.
Proof.
  revert positions. induction rows as [|row rows IH]; intros [|s ps]; simpl;
    try reflexivity.
  now rewrite IH.
Qed.

Lemma lookup_fill_masks (rows : list (list bool)) (positions : list nat)
    (i : nat) (row : list bool) (s : nat) :
  rows !! i = Some row -> positions !! i = Some s ->
  fill_masks rows positions !! i = Some (slice_assign row s (s + IMAGE_LEN) true).
Proof.
  revert positions i. induction rows as [|r rows IH]; intros [|q ps] [|i]; simpl;
    try discriminate.
  - now intros [= ->] [= ->].
  - apply IH.
Qed.

Lemma lookup_fill_masks_beyond (rows : list (list bool)) (positions : list nat)
    (i : nat) :
  positions !! i = None -> fill_masks rows positions !! i = rows !! i.
Proof.
  revert positions i. induction rows as [|r rows IH]; intros [|q ps] [|i]; simpl;
    try reflexivity; try discriminate.
  apply IH.
Qed.

Lemma fill_masks_rows_width (width : nat) (rows : list (list bool))
    (positions : list nat) :
  Forall (fun r => length r = width) rows ->
  Forall (fun r => length r = width) (fill_masks rows positions).
Proof.
  intros Hrows. revert positions.
  induction Hrows as [|r rows Hr Hrows IH]; intros [|s ps]; simpl;
    try (constructor; assumption).
  constructor; [now rewrite length_slice_assign | apply IH].
Qed.

Lemma IMAGE_LEN_eq : IMAGE_LEN = 1024.
Proof. reflexivity. Qed.

(** The attention mask counts each position at most once. *)
Lemma real_length_le (row : list Z) :
  Forall (fun x => x = 0%Z \/ x = 1%Z) row ->
  (real_length row <= Z.of_nat (length row))%Z.
Proof.
  unfold real_length.
  induction 1 as [|x row Hx _ IH]; cbn [foldr length]; lia.
Qed.

(** ** Running the loop *)

#[local] Instance later_preorder {G} : PreOrder (@later G).
Proof.
  split.
  - intros w. unfold later. reflexivity.
  - intros w1 w2 w3. unfold later. intros H12 H23. now transitivity (w_trace w2).
Qed.

Section Runs.
Context {G T : Type} `{RandomSource G} `{Tokenizer T}.
Variable tokenizer : T.
Variable p : float.

Lemma bind_Ok_inv {A B} (m : M G A) (k : A -> M G B) w b w' :
  bind m k w = (Ok b, w') ->
  exists a w1, m w = (Ok a, w1) /\ k a w1 = (Ok b, w').
Proof.
  unfold bind. destruct (m w) as [[a|e] w1]; [eauto | discriminate].
Qed.

Lemma bind_Ok {A B} (m : M G A) (k : A -> M G B) w a w1 :
  m w = (Ok a, w1) -> bind m k w = k a w1.
Proof. unfold bind. now intros ->. Qed.

Lemma iteration_inv image captions w it w' :
  iteration tokenizer p image captions w = (Ok it, w') ->
  exists u, iteration_post tokenizer p image captions w u it w'.
Proof.
  unfold iteration. intros Hrun.
  apply bind_Ok_inv in Hrun as (u & w1 & Hu & Hrun).
  apply bind_Ok_inv in Hrun as (c & w2 & Hc & Hrun).
  apply bind_Ok_inv in Hrun as (s & w3 & Hs & Hrun).
  unfold ret in Hrun. injection Hrun as <- <-.
  unfold random in Hu. destruct (rng_random (w_rng w)) as [u0 g1] eqn:Hdraw.
  injection Hu as -> <-.
  assert (Hres : resolved captions c /\
                 w_trace w2 = w_trace w ++ EvRandom u
                   :: match captions with
                      | CaptionStr _ => []
                      | CaptionList l => [EvChoice l (Ok c)]
                      end).
  { destruct captions as [s0|l]; simpl in Hc |- *.
    - unfold ret in Hc. injection Hc as <- <-. split; [reflexivity|].
      reflexivity.
    - unfold choice in Hc. simpl in Hc.
      destruct (rng_choice l g1) as [r g2] eqn:Hpick.
      injection Hc as -> <-. split.
      + exists g1. now rewrite Hpick.
      + simpl. now rewrite <- app_assoc. }
  destruct Hres as [Hres Htr2].
  exists u; split; simpl; try reflexivity; try assumption.
  - unfold compute_start in Hs.
    destruct (1 - p <? u)%float.
    + apply bind_Ok_inv in Hs as (tokens & w4 & Htok & Hs).
      unfold lift in Htok. injection Htok as Htok _.
      unfold ret in Hs. injection Hs as <- _. eauto.
    + unfold ret in Hs. now injection Hs as <- _.
  - unfold compute_start in Hs. unfold iteration_events. simpl.
    destruct (1 - p <? u)%float.
    + apply bind_Ok_inv in Hs as (tokens & w4 & Htok & Hs).
      unfold lift in Htok. injection Htok as _ <-.
      unfold ret in Hs. injection Hs as _ <-.
      unfold emit. simpl. rewrite Htr2.
      now rewrite <- app_assoc.
    + unfold ret in Hs. injection Hs as _ <-. rewrite Htr2.
      now rewrite app_nil_r.
Qed.

Lemma loop_runs pairs acc w acc' w' :
  loop tokenizer p pairs acc w = (Ok acc', w') ->
  exists its, runs tokenizer p pairs w its w' /\ acc' = foldl append acc its.
Proof.
  revert acc w. induction pairs as [|[image captions] rest IH]; intros acc w; simpl.
  - unfold ret. intros [= <- <-]. exists []. split; [constructor | reflexivity].
  - intros Hrun. apply bind_Ok_inv in Hrun as (it & w1 & Hit & Hrest).
    apply IH in Hrest as (its & Hruns & ->).
    exists (it :: its). split; [econstructor; eassumption | reflexivity].
Qed.

Lemma runs_loop pairs w its w' acc :
  runs tokenizer p pairs w its w' ->
  loop tokenizer p pairs acc w = (Ok (foldl append acc its), w').
Proof.
  intros Hruns. revert acc.
  induction Hruns as [w|image captions rest w it w1 its w' Hit _ IH]; intros acc.
  - reflexivity.
  - simpl. rewrite (bind_Ok _ _ _ _ _ Hit). apply IH.
Qed.

Lemma runs_length pairs w its w' :
  runs tokenizer p pairs w its w' -> length its = length pairs.
Proof. induction 1; simpl; congruence. Qed.

Lemma iteration_later image captions w it w' :
  iteration tokenizer p image captions w = (Ok it, w') -> later w w'.
Proof.
  intros Hit. destruct (iteration_inv _ _ _ _ _ Hit) as [u [_ _ _ _ Htr]].
  unfold later. rewrite Htr. now apply prefix_app_r.
Qed.

Lemma runs_later pairs w its w' : runs tokenizer p pairs w its w' -> later w w'.
Proof.
  induction 1 as [w|image captions rest w it w1 its w' Hit _ IH].
  - reflexivity.
  - transitivity w1; [eapply iteration_later; eassumption | exact IH].
Qed.

(** The [i]-th pair is handled by the [i]-th iteration, somewhere
    between the first and the last world. *)
Lemma runs_lookup pairs w its w' i image captions :
  runs tokenizer p pairs w its w' ->
  pairs !! i = Some (image, captions) ->
  exists it wi wi',
    its !! i = Some it /\
    iteration tokenizer p image captions wi = (Ok it, wi') /\
    later w wi /\ later wi' w'.
Proof.
  intros Hruns. revert i.
  induction Hruns as [w|image0 captions0 rest w it w1 its w' Hit Hrest IH];
    intros [|i]; simpl; try discriminate.
  - intros [= -> ->]. exists it, w, w1. repeat split; try assumption.
    + reflexivity.
    + eapply runs_later; eassumption.
  - intros Hi. destruct (IH _ Hi) as (it' & wi & wi' & Hl & Hrun & Hb & Ha).
    exists it', wi, wi'. repeat split; try assumption.
    transitivity w1; [eapply iteration_later; eassumption | exact Hb].
Qed.

Lemma foldl_append_kinds acc its :
  kinds (foldl append acc its) = kinds acc ++ map kind its.
Proof.
  revert acc. induction its as [|it its IH]; intros acc; simpl.
  - now rewrite app_nil_r.
  - rewrite IH. simpl. now rewrite <- app_assoc.
Qed.

Lemma foldl_append_positions acc its :
  image_start_positions (foldl append acc its) =
    image_start_positions acc ++ map image_start_position its.
Proof.
  revert acc. induction its as [|it its IH]; intros acc; simpl.
  - now rewrite app_nil_r.
  - rewrite IH. simpl. now rewrite <- app_assoc.
Qed.

Lemma foldl_append_prompts acc its :
  prompts (foldl append acc its) = prompts acc ++ map prompt its.
Proof.
  revert acc. induction its as [|it its IH]; intros acc; simpl.
  - now rewrite app_nil_r.
  - rewrite IH. simpl. now rewrite <- app_assoc.
Qed.

End Runs.

(** ** The collater as a whole *)

Lemma draws_of_app (evs1 evs2 : list event) :
  draws_of (evs1 ++ evs2) = draws_of evs1 ++ draws_of evs2.
Proof. unfold draws_of. apply omap_app. Qed.

Section Whole.
Context {G T : Type} `{RandomSource G} `{Tokenizer T}.
Variable tokenizer : T.
Variable p : float.

Lemma pairs_of_lookup features i ex :
  features !! i = Some ex ->
  pairs_of features !! i = Some (palette_images ex, captions ex).
Proof.
  unfold pairs_of. revert i. induction features as [|f fs IH]; intros [|i]; simpl;
    try discriminate.
  - now intros [= ->].
  - apply IH.
Qed.

Lemma length_pairs_of features : length (pairs_of features) = length features.
Proof.
  unfold pairs_of. induction features as [|f fs IH]; simpl; congruence.
Qed.

(** A failed assertion: nothing has happened yet. *)
Lemma collater_rejects features w :
  p_in_range p = false ->
  _collater tokenizer p features w = (Raise (AssertionError p), w).
Proof. unfold _collater. now intros ->. Qed.

(** A successful call went through the loop and the tokenizer call. *)
Lemma collater_inv features w batch w' :
  _collater tokenizer p features w = (Ok batch, w') ->
  p_in_range p = true /\
  exists acc wl enc,
    loop tokenizer p (pairs_of features) no_lists w = (Ok acc, wl) /\
    batch_encode tokenizer (prompts acc) = Ok enc /\
    w' = emit wl (w_rng wl) (EvBatchEncode (prompts acc)) /\
    batch = assemble ∅ acc enc.
Proof.
  unfold _collater. destruct (p_in_range p); simpl; [|discriminate].
  intros Hrun. split; [reflexivity|].
  apply bind_Ok_inv in Hrun as (acc & wl & Hloop & Hrun).
  apply bind_Ok_inv in Hrun as (enc & we & Henc & Hret).
  unfold lift in Henc. injection Henc as Henc <-.
  unfold ret in Hret. injection Hret as <- <-.
  exists acc, wl, enc. repeat split; assumption.
Qed.

Lemma collater_complete features w acc wl enc :
  p_in_range p = true ->
  loop tokenizer p (pairs_of features) no_lists w = (Ok acc, wl) ->
  batch_encode tokenizer (prompts acc) = Ok enc ->
  _collater tokenizer p features w =
    (Ok (assemble ∅ acc enc), emit wl (w_rng wl) (EvBatchEncode (prompts acc))).
Proof.
  intros Hp Hloop Henc. unfold _collater. rewrite Hp. simpl.
  fold (pairs_of features).
  rewrite (bind_Ok _ _ _ _ _ Hloop).
  unfold bind, lift, ret. now rewrite Henc.
Qed.

(** The call is total: with [p] in range it returns a batch whenever
    the collaborators do not raise on what they are given. *)
Lemma iteration_succeeds image captions w :
  (forall s, exists tokens, tokenize tokenizer s = Ok tokens) ->
  (forall l g, captions = CaptionList l -> exists c, fst (rng_choice l g) = Ok c) ->
  exists it w', iteration tokenizer p image captions w = (Ok it, w').
Proof.
  intros Htok Hpick. unfold iteration, bind, random.
  destruct (rng_random (w_rng w)) as [u g1].
  assert (Hcap : exists c w2,
            resolve_caption captions (emit w g1 (EvRandom u)) = (Ok c, w2)).
  { destruct captions as [s|l]; simpl.
    - unfold ret. eauto.
    - unfold choice. simpl. destruct (Hpick l g1 eq_refl) as [c Hc].
      destruct (rng_choice l g1) as [r g2]. simpl in Hc. subst r. eauto. }
  destruct Hcap as (c & w2 & ->).
  unfold compute_start, bind, lift, ret.
  destruct (1 - p <? u)%float; [|eauto].
  destruct (Htok c) as [tokens ->]. eauto.
Qed.

Lemma loop_succeeds pairs acc w :
  (forall s, exists tokens, tokenize tokenizer s = Ok tokens) ->
  (forall l g, CaptionList l ∈ pairs.*2 -> exists c, fst (rng_choice l g) = Ok c) ->
  exists acc' w', loop tokenizer p pairs acc w = (Ok acc', w').
Proof.
  intros Htok. revert acc w.
  induction pairs as [|[image captions] rest IH]; intros acc w Hpick; simpl.
  - unfold ret. eauto.
  - destruct (iteration_succeeds image captions w Htok) as (it & w1 & Hit).
    { intros l g ->. apply Hpick. simpl. left. }
    rewrite (bind_Ok _ _ _ _ _ Hit). apply IH.
    intros l g Hl. apply Hpick. simpl. now right.
Qed.

(** X13. With [p] in range the call returns a batch as soon as the
    tokenizer raises on no text and [rng.choice] succeeds on the
    caption sequences of the batch: nothing else can make it fail. *)
Lemma collater_succeeds features w :
  p_in_range p = true ->
  (forall s, exists tokens, tokenize tokenizer s = Ok tokens) ->
  (forall texts, exists enc, batch_encode tokenizer texts = Ok enc) ->
  (forall l g, CaptionList l ∈ map captions features ->
               exists c, fst (rng_choice l g) = Ok c) ->
  exists batch w', _collater tokenizer p features w = (Ok batch, w').
Proof.
  intros Hp Htok Henc Hpick.
  destruct (loop_succeeds (pairs_of features) no_lists w Htok) as (acc & wl & Hloop).
  { intros l g Hl. apply Hpick. unfold pairs_of in Hl.
    rewrite snd_zip in Hl; [exact Hl|]. now rewrite !length_map. }
  destruct (Henc (prompts acc)) as [enc Hencode].
  rewrite (collater_complete _ _ _ _ _ Hp Hloop Hencode). eauto.
Qed.

(** The lists after the loop, entry by entry. *)
Lemma loop_example features w acc w' i ex :
  loop tokenizer p (pairs_of features) no_lists w = (Ok acc, w') ->
  features !! i = Some ex ->
  exists it u wi wi',
    iteration_post tokenizer p (palette_images ex) (captions ex) wi u it wi' /\
    later w wi /\ later wi' w' /\
    kinds acc !! i = Some (kind it) /\
    image_start_positions acc !! i = Some (image_start_position it) /\
    prompts acc !! i = Some (prompt it).
Proof.
  intros Hloop Hex.
  apply loop_runs in Hloop as (its & Hruns & ->).
  apply pairs_of_lookup in Hex.
  destruct (runs_lookup _ _ _ _ _ _ _ _ _ Hruns Hex)
    as (it & wi & wi' & Hit & Hrun & Hb & Ha).
  destruct (iteration_inv _ _ _ _ _ _ _ Hrun) as [u Hpost].
  exists it, u, wi, wi'.
  split; [exact Hpost|]. split; [exact Hb|]. split; [exact Ha|].
  split; [|split].
  - rewrite foldl_append_kinds. simpl. rewrite list_lookup_fmap, Hit. reflexivity.
  - rewrite foldl_append_positions. simpl. rewrite list_lookup_fmap, Hit. reflexivity.
  - rewrite foldl_append_prompts. simpl. rewrite list_lookup_fmap, Hit. reflexivity.
Qed.

Lemma loop_lengths features w acc w' :
  loop tokenizer p (pairs_of features) no_lists w = (Ok acc, w') ->
  length (kinds acc) = length features /\
  length (image_start_positions acc) = length features /\
  length (prompts acc) = length features.
Proof.
  intros Hloop. apply loop_runs in Hloop as (its & Hruns & ->).
  apply runs_length in Hruns. rewrite length_pairs_of in Hruns.
  rewrite foldl_append_kinds, foldl_append_positions, foldl_append_prompts.
  simpl. now rewrite !length_map.
Qed.

Lemma kind_cases it : kind it = 0%Z \/ kind it = 1%Z.
Proof. unfold kind. destruct (coin_toss it); auto. Qed.

(** The trace of the loop: every iteration's coin comes from a draw
    that the trace records. *)
Lemma runs_draws pairs w its w' :
  runs tokenizer p pairs w its w' ->
  exists evs, w_trace w' = w_trace w ++ evs /\
    Forall (fun it => exists u, u ∈ draws_of evs /\
                                coin_toss it = (1 - p <? u)%float) its.
Proof.
  induction 1 as [w|image captions rest w it w1 its w' Hit _ IH].
  - exists []. now rewrite app_nil_r.
  - destruct IH as (evs & Htr & Hall).
    destruct (iteration_inv _ _ _ _ _ _ _ Hit) as [u [Hcoin _ _ _ Htr1]].
    exists (iteration_events u captions it ++ evs). split.
    + rewrite Htr, Htr1. now rewrite <- app_assoc.
    + constructor.
      * exists u. split; [|exact Hcoin].
        unfold iteration_events, draws_of. simpl. left.
      * eapply Forall_impl; [exact Hall|]. cbv beta.
        intros it' (u' & Hin & Hc). exists u'. split; [|exact Hc].
        rewrite draws_of_app. apply elem_of_app. now right.
Qed.

Lemma events_since_app (w w' : world G) evs :
  w_trace w' = w_trace w ++ evs -> events_since w w' = evs.
Proof. unfold events_since. intros ->. now rewrite drop_app_length. Qed.

(** The assembled dict, key by key. *)
Lemma assemble_lookups acc enc :
  let batch := assemble ∅ acc enc in
  batch !! "input_ids" = Some (LongTensor2 (input_ids enc)) /\
  batch !! "attention_mask" = Some (LongTensor2 (attention_mask enc)) /\
  batch !! "image_masks" =
    Some (BoolTensor2 (build_image_masks (shape (attention_mask enc))
                                         (image_start_positions acc))) /\
  batch !! "kinds" = Some (LongTensor1 (kinds acc)).
Proof. unfold assemble. simpl. repeat split; now simplify_map_eq. Qed.

End Whole.

(** ** The order of the iterations *)

Lemma draws_of_iteration_events (u : float) (captions : Captions) (it : Iteration) :
  draws_of (iteration_events u captions it) = [u].
Proof.
  unfold iteration_events, draws_of.
  destruct captions, (coin_toss it); reflexivity.
Qed.

Section Order.
Context {G T : Type} `{RandomSource G} `{Tokenizer T}.
Variable tokenizer : T.
Variable p : float.

(** The [i]-th pair is handled after exactly [i] draws. *)
Lemma runs_segment pairs w its w' i image captions :
  runs tokenizer p pairs w its w' ->
  pairs !! i = Some (image, captions) ->
  exists it u before after,
    its !! i = Some it /\
    (exists wi wi',
       iteration_post tokenizer p image captions wi u it wi') /\
    w_trace w' = w_trace w ++ before ++ iteration_events u captions it ++ after /\
    length (draws_of before) = i.
Proof.
  intros Hruns. revert i.
  induction Hruns as [w|image0 captions0 rest w it w1 its w' Hit Hrest IH];
    intros [|i] Hi; simpl in Hi; try discriminate Hi.
  - injection Hi as -> ->.
    destruct (iteration_inv _ _ _ _ _ _ _ Hit) as [u Hpost].
    destruct (runs_later _ _ _ _ _ _ Hrest) as [after Hafter].
    exists it, u, [], after. split; [reflexivity|]. split; [eauto|].
    split; [|reflexivity].
    rewrite Hafter, (post_trace _ _ _ _ _ _ _ _ Hpost).
    generalize (iteration_events u captions it). intros evs.
    now rewrite <- app_assoc.
  - destruct (IH _ Hi) as (it' & u & before & after & Hl & Hpost & Htr & Hlen).
    destruct (iteration_inv _ _ _ _ _ _ _ Hit) as [u0 Hpost0].
    exists it', u, (iteration_events u0 captions0 it ++ before), after.
    split; [exact Hl|]. split; [exact Hpost|]. split.
    + rewrite Htr, (post_trace _ _ _ _ _ _ _ _ Hpost0).
      generalize (iteration_events u0 captions0 it)
                 (iteration_events u captions it').
      intros evs0 evs. now rewrite <- !app_assoc.
    + rewrite draws_of_app, draws_of_iteration_events. simpl. now rewrite Hlen.
Qed.

(** One draw per iteration. *)
Lemma runs_draw_count pairs w its w' :
  runs tokenizer p pairs w its w' ->
  length (draws_of (events_since w w')) = length its.
Proof.
  induction 1 as [w|image captions rest w it w1 its w' Hit Hrest IH].
  - unfold events_since. now rewrite drop_all.
  - destruct (iteration_inv _ _ _ _ _ _ _ Hit) as [u0 [_ _ _ _ Htr0]].
    destruct (runs_later _ _ _ _ _ _ Hrest) as [evs Hevs].
    rewrite (events_since_app w1 w' evs Hevs) in IH.
    rewrite (events_since_app w w' (iteration_events u0 captions it ++ evs)).
    + rewrite draws_of_app, draws_of_iteration_events. simpl. now rewrite IH.
    + rewrite Hevs, Htr0. now rewrite <- app_assoc.
Qed.

Lemma lookup_draws_segment (before after : list event) u captions it :
  draws_of (before ++ iteration_events u captions it ++ after)
    !! length (draws_of before) = Some u.
Proof.
  rewrite !draws_of_app, draws_of_iteration_events.
  rewrite lookup_app_r by lia. now rewrite Nat.sub_diag.
Qed.

(** The lists after the loop, entry by entry, with the place of the
    iteration in the trace. *)
Lemma loop_example_trace features w acc w' i ex :
  loop tokenizer p (pairs_of features) no_lists w = (Ok acc, w') ->
  features !! i = Some ex ->
  exists it u before after,
    (exists wi wi',
       iteration_post tokenizer p (palette_images ex) (captions ex) wi u it wi') /\
    events_since w w' = before ++ iteration_events u (captions ex) it ++ after /\
    length (draws_of before) = i /\
    kinds acc !! i = Some (kind it) /\
    image_start_positions acc !! i = Some (image_start_position it) /\
    prompts acc !! i = Some (prompt it).
Proof.
  intros Hloop Hex.
  apply loop_runs in Hloop as (its & Hruns & ->).
  apply pairs_of_lookup in Hex.
  destruct (runs_segment _ _ _ _ _ _ _ Hruns Hex)
    as (it & u & before & after & Hit & Hpost & Htr & Hlen).
  exists it, u, before, after.
  split; [exact Hpost|]. split; [now apply events_since_app|].
  split; [exact Hlen|]. split; [|split].
  - rewrite foldl_append_kinds. simpl. rewrite list_lookup_fmap, Hit. reflexivity.
  - rewrite foldl_append_positions. simpl. rewrite list_lookup_fmap, Hit. reflexivity.
  - rewrite foldl_append_prompts. simpl. rewrite list_lookup_fmap, Hit. reflexivity.
Qed.
End Order.

(** ** The rows of the mask (utils.py:90-93) *)

(** A row of the mask is a row of [zeros], written once or not at all. *)
Lemma build_image_masks_row (size : nat * nat) (positions : list nat)
    (i : nat) (row : list bool) :
  t_rows (build_image_masks size positions) !! i = Some row ->
  i < fst size /\
  ((positions !! i = None /\ row = replicate (snd size) false) \/
   (exists s, positions !! i = Some s /\
              row = slice_assign (replicate (snd size) false) s (s + IMAGE_LEN) true)).
Proof.
  unfold build_image_masks, zeros. simpl. intros Hrow.
  assert (Hi : i < fst size).
  { apply lookup_lt_Some in Hrow.
    now rewrite length_fill_masks, length_replicate in Hrow. }
  split; [exact Hi|].
  destruct (positions !! i) as [s|] eqn:Hs.
  - right. exists s. split; [reflexivity|].
    rewrite (lookup_fill_masks _ _ i (replicate (snd size) false) s) in Hrow;
      [now injection Hrow | now apply lookup_replicate_2 | exact Hs].
  - left. split; [reflexivity|].
    rewrite lookup_fill_masks_beyond in Hrow by exact Hs.
    now apply lookup_replicate_1 in Hrow as [-> _].
Qed.

Lemma lookup_zero_row (width j : nat) (s : nat) :
  slice_assign (replicate width false) s (s + IMAGE_LEN) true !! j = Some true ->
  j < width /\ s <= j < s + IMAGE_LEN.
Proof.
  intros Hj.
  assert (Hjw : j < width).
  { apply lookup_lt_Some in Hj.
    now rewrite length_slice_assign, length_replicate in Hj. }
  split; [exact Hjw|].
  rewrite lookup_slice_assign in Hj by now rewrite length_replicate.
  destruct (bool_decide (s <= j < s + IMAGE_LEN)) eqn:Hspan.
  - now apply bool_decide_eq_true in Hspan.
  - rewrite lookup_replicate_2 in Hj by exact Hjw. discriminate.
Qed.

(** * The claims *)

Section Claims.
Context {G T : Type} `{RandomSource G} `{Tokenizer T}.
Variable tokenizer : T.

(** C1. After the loop, the start offset recorded for the [i]-th
    example is 2 when its prompt has the image-first layout, and 3
    plus the length of [tokenizer.tokenize(caption)] when it has the
    text-first layout, [caption] being the caption that example
    resolved to. *)
Theorem image_start_offset (p : float) (features : list InputDataClass)
    (w w' : world G) (acc : Lists) (i : nat) (ex : InputDataClass) :
  loop tokenizer p (pairs_of features) no_lists w = (Ok acc, w') ->
  features !! i = Some ex ->
  exists c : string,
    resolved (captions ex) c /\
    ((prompts acc !! i = Some (compose_prompt false (palette_images ex) c) /\
      kinds acc !! i = Some 0%Z /\
      image_start_positions acc !! i = Some 2)
     \/
     (prompts acc !! i = Some (compose_prompt true (palette_images ex) c) /\
      kinds acc !! i = Some 1%Z /\
      exists tokens : list string,
        tokenize tokenizer c = Ok tokens /\
        image_start_positions acc !! i = Some (3 + length tokens))).
Proof.
  intros Hloop Hex.
  destruct (loop_example _ _ _ _ _ _ _ _ Hloop Hex)
    as (it & u & wi & wi' & [Hcoin Hres Hprompt Hstart Htr] & _ & _ & Hk & Hs & Hp).
  exists (caption it). split; [exact Hres|].
  unfold kind in Hk. rewrite Hprompt in Hp.
  destruct (coin_toss it).
  - right. destruct Hstart as (tokens & Htok & Hlen).
    repeat split; try assumption. exists tokens. split; [exact Htok|].
    now rewrite <- Hlen.
  - left. rewrite Hstart in Hs. auto.
Qed.

(** C3. With [p = 0.0], whenever every value drawn during the call
    lies in [0, 1), no draw [u] satisfies [u > 1.0 - p], so the [kinds]
    entry of the batch is 0 for every example. *)
Theorem p_zero_all_image_first (features : list InputDataClass)
    (w w' : world G) (batch : gmap string value) :
  _collater tokenizer 0%float features w = (Ok batch, w') ->
  Forall (fun u => in_unit_interval u = true) (draws_of (events_since w w')) ->
  Forall (fun u => (1 - 0 <? u)%float = false) (draws_of (events_since w w')) /\
  batch !! "kinds" = Some (LongTensor1 (replicate (length features) 0%Z)).
Proof.
  intros Hrun Hdraws.
  assert (Hnever : forall u, in_unit_interval u = true -> (1 - 0 <? u)%float = false).
  { intros u Hu. unfold in_unit_interval in Hu. apply andb_prop in Hu as [_ Hlt].
    replace (1 - 0)%float with 1%float by reflexivity.
    exact (ltb_asym _ _ Hlt). }
  split; [eapply Forall_impl; [exact Hdraws | exact Hnever]|].
  apply collater_inv in Hrun as (_ & acc & wl & enc & Hloop & _ & -> & ->).
  destruct (assemble_lookups acc enc) as (_ & _ & _ & ->).
  do 2 f_equal.
  apply loop_runs in Hloop as (its & Hruns & ->).
  rewrite foldl_append_kinds. simpl.
  rewrite <- (length_pairs_of features), <- (runs_length _ _ _ _ _ _ Hruns).
  destruct (runs_draws _ _ _ _ _ _ Hruns) as (evs & Htr & Hall).
  assert (Hsince : events_since w (emit wl (w_rng wl) (EvBatchEncode
            (prompts (foldl append no_lists its)))) = evs ++
            [EvBatchEncode (prompts (foldl append no_lists its))]).
  { apply events_since_app. unfold emit. simpl. rewrite Htr.
    now rewrite <- app_assoc. }
  rewrite Hsince, draws_of_app in Hdraws.
  apply Forall_app in Hdraws as [Hdraws _].
  clear Hsince Htr Hruns.
  induction Hall as [|it its (u & Hin & Hcoin) _ IH]; simpl; [reflexivity|].
  f_equal; [|exact IH].
  rewrite Forall_forall in Hdraws. specialize (Hdraws u Hin).
  unfold kind. rewrite Hcoin. now rewrite (Hnever u Hdraws).
Qed.

(** C4. With [p] below 0.0 or above 1.0 the call raises the assertion
    error at once: the world it leaves is the world it was given, so
    the generator has not been advanced and no call on the generator
    or the tokenizer has been made. *)
Theorem p_out_of_range_raises (p : float) (features : list InputDataClass)
    (w : world G) :
  (p <? 0)%float = true \/ (1 <? p)%float = true ->
  _collater tokenizer p features w = (Raise (AssertionError p), w).
Proof.
  intros Hout. apply collater_rejects. now apply outside_not_in_range.
Qed.

(** C5. The prompt of the [i]-th example is one of the two layouts and
    nothing else, chosen by that example's own coin: with [u] the
    [i]-th draw of the loop, the prompt is
    [[TextFirst]caption[Image]image] and the label 1 when
    [u > 1.0 - p], and [[ImageFirst]image[Text]caption] and the label 0
    otherwise. *)
Theorem prompt_layout (p : float) (features : list InputDataClass)
    (w w' : world G) (acc : Lists) (i : nat) (ex : InputDataClass) :
  loop tokenizer p (pairs_of features) no_lists w = (Ok acc, w') ->
  features !! i = Some ex ->
  exists (u : float) (c : string),
    let is_text_first := (1 - p <? u)%float in
    draws_of (events_since w w') !! i = Some u /\
    u ∈ draws_of (events_since w w') /\
    resolved (captions ex) c /\
    kinds acc !! i = Some (if is_text_first then 1%Z else 0%Z) /\
    prompts acc !! i =
      Some (if is_text_first
            then "[TextFirst]" +:+ c +:+ "[Image]" +:+ palette_images ex
            else "[ImageFirst]" +:+ palette_images ex +:+ "[Text]" +:+ c).
Proof.
  intros Hloop Hex.
  destruct (loop_example_trace _ _ _ _ _ _ _ _ Hloop Hex)
    as (it & u & before & after & (wi & wi' & [Hcoin Hres Hprompt _ _])
        & Htr & Hlen & Hk & _ & Hp).
  exists u, (caption it). cbv zeta.
  assert (Hdraw : draws_of (events_since w w') !! i = Some u).
  { rewrite Htr, <- Hlen. apply lookup_draws_segment. }
  split; [exact Hdraw|].
  split; [eapply list_elem_of_lookup_2; exact Hdraw|].
  split; [exact Hres|]. rewrite <- Hcoin.
  split; [exact Hk|].
  rewrite Hp, Hprompt. reflexivity.
Qed.

(** C7. The caption of the [i]-th example is the string itself when
    [captions] is a string (no call on the generator's [choice]), and
    the result of exactly one [choice] call on the sequence otherwise;
    that one string [c] is what the prompt contains and what
    [tokenizer.tokenize] is called on for the offset.  The events of
    the iteration are listed in full: a draw, at most one choice, at
    most one tokenizer call. *)
Theorem caption_resolution (p : float) (features : list InputDataClass)
    (w w' : world G) (acc : Lists) (i : nat) (ex : InputDataClass) :
  loop tokenizer p (pairs_of features) no_lists w = (Ok acc, w') ->
  features !! i = Some ex ->
  exists (u : float) (c : string) (before after : list event),
    let is_text_first := (1 - p <? u)%float in
    events_since w w' =
      before
      ++ (EvRandom u
          :: match captions ex with
             | CaptionStr _ => []
             | CaptionList l => [EvChoice l (Ok c)]
             end
          ++ (if is_text_first then [EvTokenize c] else []))
      ++ after /\
    length (draws_of before) = i /\
    match captions ex with
    | CaptionStr s => c = s
    | CaptionList l => exists g : G, fst (rng_choice l g) = Ok c
    end /\
    prompts acc !! i = Some (compose_prompt is_text_first (palette_images ex) c) /\
    if is_text_first
    then exists tokens : list string,
           tokenize tokenizer c = Ok tokens /\
           image_start_positions acc !! i = Some (3 + length tokens)
    else image_start_positions acc !! i = Some 2.
Proof.
  intros Hloop Hex.
  destruct (loop_example_trace _ _ _ _ _ _ _ _ Hloop Hex)
    as (it & u & before & after & (wi & wi' & [Hcoin Hres Hprompt Hstart _])
        & Htr & Hlen & _ & Hs & Hp).
  exists u, (caption it), before, after. cbv zeta.
  rewrite <- Hcoin.
  split; [exact Htr|]. split; [exact Hlen|]. split; [exact Hres|].
  split; [now rewrite Hp, Hprompt|].
  destruct (coin_toss it).
  - destruct Hstart as (tokens & Htok & Heq). exists tokens.
    split; [exact Htok|]. now rewrite Hs, Heq.
  - now rewrite Hs, Hstart.
Qed.

(** C8. A successful call handles the examples in input order, each
    once: the lists [kinds], [prompts] and [image_start_positions] are
    those the loop built over the examples; the [i]-th draw of the call
    decides the [i]-th example, the [i]-th entry of [kinds] (0 or 1),
    the [i]-th prompt and the [i]-th offset (2, or 3 plus the token
    count of the caption) belong to the [i]-th example; the tokenizer
    is called last and exactly on the list of prompts, [input_ids] and
    [attention_mask] are what it returned for that list, and
    [image_masks], a grid of the shape of [attention_mask], has its
    row [i] written from the [i]-th offset and its rows beyond the
    examples left False. *)
Theorem examples_in_order (p : float) (features : list InputDataClass)
    (w w' : world G) (batch : gmap string value) :
  _collater tokenizer p features w = (Ok batch, w') ->
  exists (ks : list Z) (ps : list string) (offsets : list nat)
         (enc : BatchEncoding) (masks : tensor2 bool) (wl : world G),
    loop tokenizer p (pairs_of features) no_lists w =
      (Ok {| kinds := ks; image_start_positions := offsets; prompts := ps |}, wl) /\
    length ks = length features /\
    length ps = length features /\
    length offsets = length features /\
    Forall (fun k => k = 0%Z \/ k = 1%Z) ks /\
    batch_encode tokenizer ps = Ok enc /\
    last (w_trace w') = Some (EvBatchEncode ps) /\
    batch !! "input_ids" = Some (LongTensor2 (input_ids enc)) /\
    batch !! "attention_mask" = Some (LongTensor2 (attention_mask enc)) /\
    batch !! "image_masks" = Some (BoolTensor2 masks) /\
    batch !! "kinds" = Some (LongTensor1 ks) /\
    length (draws_of (events_since w w')) = length features /\
    shape masks = shape (attention_mask enc) /\
    (forall (i : nat) (row : list bool),
       t_rows masks !! i = Some row -> length features <= i ->
       row = replicate (t_cols (attention_mask enc)) false) /\
    forall (i : nat) (ex : InputDataClass),
      features !! i = Some ex ->
      exists (u : float) (c : string) (s : nat),
        let is_text_first := (1 - p <? u)%float in
        draws_of (events_since w w') !! i = Some u /\
        resolved (captions ex) c /\
        ks !! i = Some (if is_text_first then 1%Z else 0%Z) /\
        ps !! i = Some (compose_prompt is_text_first (palette_images ex) c) /\
        offsets !! i = Some s /\
        (if is_text_first
         then exists tokens : list string,
                tokenize tokenizer c = Ok tokens /\ s = 3 + length tokens
         else s = 2) /\
        (i < length (t_rows (attention_mask enc)) ->
         t_rows masks !! i =
           Some (slice_assign (replicate (t_cols (attention_mask enc)) false)
                              s (s + IMAGE_LEN) true)).
Proof.
  intros Hrun.
  apply collater_inv in Hrun as (_ & acc & wl & enc & Hloop & Henc & -> & ->).
  destruct (assemble_lookups acc enc) as (Hids & Ham & Hmasks & Hkinds).
  destruct (loop_lengths _ _ _ _ _ _ Hloop) as (Hlk & Hls & Hlp).
  exists (kinds acc), (prompts acc), (image_start_positions acc), enc,
    (build_image_masks (shape (attention_mask enc)) (image_start_positions acc)), wl.
  assert (Hsince : events_since w (emit wl (w_rng wl) (EvBatchEncode (prompts acc)))
                   = events_since w wl ++ [EvBatchEncode (prompts acc)]).
  { destruct (loop_runs _ _ _ _ _ _ _ Hloop) as (its & Hruns & _).
    destruct (runs_later _ _ _ _ _ _ Hruns) as [evs Hevs].
    rewrite (events_since_app w wl evs Hevs).
    apply events_since_app. unfold emit. simpl. rewrite Hevs.
    now rewrite <- app_assoc. }
  assert (Hdraws : draws_of (events_since w (emit wl (w_rng wl)
                     (EvBatchEncode (prompts acc)))) = draws_of (events_since w wl)).
  { rewrite Hsince, draws_of_app. simpl. apply app_nil_r. }
  split; [now destruct acc|].
  repeat (split; [assumption|]).
  split.
  { pose proof (loop_runs _ _ _ _ _ _ _ Hloop) as (its & Hruns & ->).
    rewrite foldl_append_kinds. simpl. apply Forall_fmap, Forall_true.
    intros it. apply kind_cases. }
  split; [exact Henc|].
  split; [unfold emit; simpl; apply last_snoc|].
  repeat (split; [assumption|]).
  split.
  { rewrite Hdraws.
    pose proof (loop_runs _ _ _ _ _ _ _ Hloop) as (its & Hruns & _).
    rewrite <- (length_pairs_of features), <- (runs_length _ _ _ _ _ _ Hruns).
    eapply runs_draw_count; eassumption. }
  split.
  { unfold build_image_masks, zeros, shape. simpl.
    now rewrite length_fill_masks, length_replicate. }
  split.
  { intros i row Hrow Hi.
    apply build_image_masks_row in Hrow as (_ & [(_ & ->)|(s & Hs & _)]);
      [reflexivity|].
    apply lookup_lt_Some in Hs. lia. }
  intros i ex Hex.
  destruct (loop_example_trace _ _ _ _ _ _ _ _ Hloop Hex)
    as (it & u & before & after & (wi & wi' & [Hcoin Hres Hprompt Hstart _])
        & Htr & Hlen & Hk & Hs & Hp).
  exists u, (caption it), (image_start_position it). cbv zeta.
  split.
  { rewrite Hdraws, Htr, <- Hlen. apply lookup_draws_segment. }
  split; [exact Hres|]. rewrite <- Hcoin.
  split; [exact Hk|]. split; [now rewrite Hp, Hprompt|].
  split; [exact Hs|].
  split; [exact Hstart|].
  intros Hi. unfold build_image_masks, zeros, shape. simpl.
  apply lookup_fill_masks; [|exact Hs].
  now apply lookup_replicate_2.
Qed.

(** C2. In the batch of a successful call [image_masks] is a grid of
    the shape of [attention_mask], with a row for every row of it.  A
    row without an example is False throughout; row [i] of an example
    is True at column [j] exactly when [j] lies in the span
    [offset, offset + IMAGE_LEN) of the [i]-th recorded offset, and
    False everywhere else; when the attention mask of that row (a
    well-formed row of zeros and ones) counts at least
    [offset + 1024] real tokens, the row has exactly
    [IMAGE_LEN = 1024] True entries. *)
Theorem image_mask_span (p : float) (features : list InputDataClass)
    (w w' : world G) (batch : gmap string value) :
  _collater tokenizer p features w = (Ok batch, w') ->
  exists (acc : Lists) (wl : world G) (am : tensor2 Z) (masks : tensor2 bool),
    loop tokenizer p (pairs_of features) no_lists w = (Ok acc, wl) /\
    length (image_start_positions acc) = length features /\
    batch !! "attention_mask" = Some (LongTensor2 am) /\
    batch !! "image_masks" = Some (BoolTensor2 masks) /\
    shape masks = shape am /\
    (forall i : nat, i < length (t_rows am) ->
       exists row : list bool,
         t_rows masks !! i = Some row /\ length row = t_cols am) /\
    (forall (i : nat) (row : list bool),
       t_rows masks !! i = Some row ->
       image_start_positions acc !! i = None ->
       row = replicate (t_cols am) false) /\
    forall (i s : nat) (row : list bool),
      image_start_positions acc !! i = Some s ->
      t_rows masks !! i = Some row ->
      (forall j : nat, j < length row ->
         row !! j = Some (bool_decide (s <= j < s + IMAGE_LEN))) /\
      (forall am_row : list Z,
         t_rows am !! i = Some am_row ->
         length am_row = t_cols am ->
         Forall (fun x => x = 0%Z \/ x = 1%Z) am_row ->
         (Z.of_nat (s + 1024) <= real_length am_row)%Z ->
         true_count row = IMAGE_LEN /\ IMAGE_LEN = 1024).
Proof.
  intros Hrun.
  apply collater_inv in Hrun as (_ & acc & wl & enc & Hloop & Henc & -> & ->).
  destruct (assemble_lookups acc enc) as (_ & Ham & Hmasks & _).
  destruct (loop_lengths _ _ _ _ _ _ Hloop) as (_ & Hls & _).
  exists acc, wl, (attention_mask enc),
    (build_image_masks (shape (attention_mask enc)) (image_start_positions acc)).
  repeat (split; [assumption|]).
  set (width := t_cols (attention_mask enc)).
  split.
  { unfold build_image_masks, zeros, shape. simpl.
    now rewrite length_fill_masks, length_replicate. }
  split.
  { intros i Hi.
    destruct (lookup_lt_is_Some_2
                (t_rows (build_image_masks (shape (attention_mask enc))
                                           (image_start_positions acc))) i)
      as [row Hrow].
    { unfold build_image_masks, zeros, shape. simpl.
      now rewrite length_fill_masks, length_replicate. }
    exists row. split; [exact Hrow|].
    apply build_image_masks_row in Hrow as (_ & [(_ & ->)|(s & _ & ->)]).
    - apply length_replicate.
    - rewrite length_slice_assign. apply length_replicate. }
  split.
  { intros i row Hrow Hnone.
    apply build_image_masks_row in Hrow as (_ & [(_ & ->)|(s & Hs & _)]);
      [reflexivity | congruence]. }
  intros i s row Hs Hrow.
  unfold build_image_masks, zeros, shape in Hrow. simpl in Hrow. fold width in Hrow.
  assert (Hi : i < length (t_rows (attention_mask enc))).
  { apply lookup_lt_Some in Hrow.
    now rewrite length_fill_masks, length_replicate in Hrow. }
  rewrite (lookup_fill_masks _ _ i (replicate width false) s) in Hrow;
    [|now apply lookup_replicate_2|exact Hs].
  injection Hrow as <-. split.
  - intros j Hj. rewrite length_slice_assign, length_replicate in Hj.
    rewrite lookup_slice_assign by now rewrite length_replicate.
    destruct (bool_decide (s <= j < s + IMAGE_LEN)); [reflexivity|].
    now apply lookup_replicate_2.
  - intros am_row Hamrow Hlen H01 Hreal. split; [|reflexivity].
    apply real_length_le in H01. rewrite true_count_slice_zeros.
    fold width in Hlen. rewrite IMAGE_LEN_eq. lia.
Qed.

(** C9. Once the loop and the tokenizer call have succeeded, the mask
    step cannot fail: the call returns, [image_masks] has the shape of
    [attention_mask] with every row as wide as the grid, every True
    entry of row [i] lies inside the row and inside the span of the
    [i]-th offset, and the row holds
    [min(offset + IMAGE_LEN, width) - min(offset, width)] True
    entries: fewer than 1024 when the span runs past the row, none
    when the offset is at or beyond the width. *)
Theorem image_mask_within_bounds (p : float) (features : list InputDataClass)
    (w wl : world G) (acc : Lists) (enc : BatchEncoding) :
  p_in_range p = true ->
  loop tokenizer p (pairs_of features) no_lists w = (Ok acc, wl) ->
  batch_encode tokenizer (prompts acc) = Ok enc ->
  exists (batch : gmap string value) (w' : world G) (masks : tensor2 bool),
    let width := t_cols (attention_mask enc) in
    _collater tokenizer p features w = (Ok batch, w') /\
    batch !! "image_masks" = Some (BoolTensor2 masks) /\
    shape masks = shape (attention_mask enc) /\
    tensor_wf masks /\
    forall (i s : nat) (row : list bool),
      image_start_positions acc !! i = Some s ->
      t_rows masks !! i = Some row ->
      length row = width /\
      true_count row = ((s + IMAGE_LEN) `min` width) - (s `min` width) /\
      (width < s + IMAGE_LEN -> true_count row < 1024) /\
      (width <= s -> true_count row = 0) /\
      (forall j : nat, row !! j = Some true ->
                       j < width /\ s <= j < s + IMAGE_LEN).
Proof.
  intros Hp Hloop Henc.
  destruct (assemble_lookups acc enc) as (_ & _ & Hmasks & _).
  exists (assemble ∅ acc enc), (emit wl (w_rng wl) (EvBatchEncode (prompts acc))),
    (build_image_masks (shape (attention_mask enc)) (image_start_positions acc)).
  cbv zeta. set (width := t_cols (attention_mask enc)).
  split; [now apply collater_complete|]. split; [exact Hmasks|].
  split; [|split].
  - unfold build_image_masks, zeros, shape. simpl.
    now rewrite length_fill_masks, length_replicate.
  - unfold tensor_wf, build_image_masks, zeros, shape. simpl.
    apply fill_masks_rows_width. apply Forall_replicate, length_replicate.
  - intros i s row Hs Hrow.
    unfold build_image_masks, zeros, shape in Hrow. simpl in Hrow. fold width in Hrow.
    assert (Hi : i < length (t_rows (attention_mask enc))).
    { apply lookup_lt_Some in Hrow.
      now rewrite length_fill_masks, length_replicate in Hrow. }
    rewrite (lookup_fill_masks _ _ i (replicate width false) s) in Hrow;
      [|now apply lookup_replicate_2|exact Hs].
    injection Hrow as <-.
    rewrite length_slice_assign, length_replicate, true_count_slice_zeros.
    pose proof IMAGE_LEN_eq as HL.
    split; [reflexivity|]. split; [reflexivity|].
    split; [lia|]. split; [lia|].
    intros j Hj.
    assert (Hjw : j < width).
    { apply lookup_lt_Some in Hj.
      now rewrite length_slice_assign, length_replicate in Hj. }
    split; [exact Hjw|].
    rewrite lookup_slice_assign in Hj by now rewrite length_replicate.
    destruct (bool_decide (s <= j < s + IMAGE_LEN)) eqn:Hspan.
    + now apply bool_decide_eq_true in Hspan.
    + rewrite lookup_replicate_2 in Hj by exact Hjw. discriminate.
Qed.

(** C10. The batch of a successful call has exactly the four keys
    [input_ids], [attention_mask], [image_masks], [kinds];
    [image_masks] is a well-formed grid of the shape of
    [attention_mask], hence of [input_ids] as the tokenizer returns
    both in one shape; [kinds] has one entry per example.  A call
    succeeds only with [p] in [0.0, 1.0]. *)
Theorem batch_record_shape (p : float) (features : list InputDataClass)
    (w w' : world G) (batch : gmap string value) :
  (forall texts enc, batch_encode tokenizer texts = Ok enc ->
                     shape (input_ids enc) = shape (attention_mask enc)) ->
  _collater tokenizer p features w = (Ok batch, w') ->
  p_in_range p = true /\
  dom batch = ({["input_ids"; "attention_mask"; "image_masks"; "kinds"]} : gset string) /\
  exists (ids am : tensor2 Z) (masks : tensor2 bool) (ks : list Z),
    batch !! "input_ids" = Some (LongTensor2 ids) /\
    batch !! "attention_mask" = Some (LongTensor2 am) /\
    batch !! "image_masks" = Some (BoolTensor2 masks) /\
    batch !! "kinds" = Some (LongTensor1 ks) /\
    shape masks = shape am /\
    shape masks = shape ids /\
    tensor_wf masks /\
    length ks = length features.
Proof.
  intros Hshapes Hrun.
  apply collater_inv in Hrun as (Hp & acc & wl & enc & Hloop & Henc & -> & ->).
  split; [exact Hp|]. split.
  { unfold assemble. rewrite !dom_insert_L, dom_empty_L. set_solver. }
  destruct (assemble_lookups acc enc) as (Hids & Ham & Hmasks & Hkinds).
  destruct (loop_lengths _ _ _ _ _ _ Hloop) as (Hlk & _ & _).
  exists (input_ids enc), (attention_mask enc),
    (build_image_masks (shape (attention_mask enc)) (image_start_positions acc)),
    (kinds acc).
  repeat (split; [assumption|]).
  assert (Hsame : shape (build_image_masks (shape (attention_mask enc))
                           (image_start_positions acc))
                  = shape (attention_mask enc)).
  { unfold build_image_masks, zeros, shape. simpl.
    now rewrite length_fill_masks, length_replicate. }
  split; [exact Hsame|].
  split; [now rewrite Hsame, (Hshapes _ _ Henc)|].
  split; [|exact Hlk].
  unfold tensor_wf, build_image_masks, zeros, shape. simpl.
  apply fill_masks_rows_width. apply Forall_replicate, length_replicate.
Qed.

End Claims.

(** ** Preparing the tokenizer *)

Section Prepare.
Context {T : Type} `{Tokenizer T}.


(** What the underlying tokenizer promises about [add_tokens]: it
    leaves the vocabulary alone when every token is already there, it
    registers what it is given, and it never removes a token. *)
Hypothesis add_present_noop : forall (ts : list string) (t : T),
  (forall x, x ∈ ts -> has_token t x) ->
  get_vocab (add_tokens ts t) = get_vocab t.
Hypothesis add_registers : forall (ts : list string) (t : T) (x : string),
  x ∈ ts -> has_token (add_tokens ts t) x.
Hypothesis add_keeps : forall (ts : list string) (t : T) (x : string),
  has_token t x -> has_token (add_tokens ts t) x.

Lemma prepare_tokenizer_lookup (tokenizer : ref) (h : gmap ref T) :
  snd (prepare_tokenizer tokenizer h) !! tokenizer = prepared <$> h !! tokenizer.
Proof.
  unfold prepare_tokenizer, prepared. simpl.
  rewrite !lookup_alter_eq. now destruct (h !! tokenizer).
Qed.

Lemma prepare_tokenizer_frame (tokenizer r : ref) (h : gmap ref T) :
  r <> tokenizer -> snd (prepare_tokenizer tokenizer h) !! r = h !! r.
Proof.
  intros Hr. unfold prepare_tokenizer. simpl.
  now rewrite !lookup_alter_ne by congruence.
Qed.

Lemma prepared_has_markers (t : T) (x : string) :
  x ∈ MARKER_TOKENS -> has_token (prepared t) x.
Proof.
  unfold MARKER_TOKENS, prepared. intros [Hx|Hx]%elem_of_app.
  - apply add_keeps. now apply add_registers.
  - now apply add_registers.
Qed.

Lemma prepared_again (t : T) :
  get_vocab (prepared (prepared t)) = get_vocab (prepared t).
Proof.
  assert (Hpix : get_vocab (add_tokens PIXEL_TOKENS (prepared t))
                 = get_vocab (prepared t)).
  { apply add_present_noop. intros x Hx. apply prepared_has_markers.
    unfold MARKER_TOKENS. apply elem_of_app. now left. }
  unfold prepared at 1. rewrite add_present_noop; [exact Hpix|].
  intros x Hx. unfold has_token. rewrite Hpix.
  apply prepared_has_markers. unfold MARKER_TOKENS. apply elem_of_app. now right.
Qed.

(** C6. [prepare_tokenizer] returns the reference it was given, whose
    object now has every pixel and structural token in its
    vocabulary; preparing that tokenizer a second time returns the
    same reference again and leaves its vocabulary as it was, in
    content and in size, and no other object of the heap is touched.
    The underlying tokenizer is assumed to treat the registration of
    tokens that are all present as a no-op. *)
Theorem prepare_tokenizer_idempotent (tokenizer : ref) (h : gmap ref T) (t : T) :
  h !! tokenizer = Some t ->
  let once := prepare_tokenizer tokenizer h in
  let twice := prepare_tokenizer (fst once) (snd once) in
  fst once = tokenizer /\ fst twice = tokenizer /\
  exists t1 t2 : T,
    snd once !! tokenizer = Some t1 /\
    snd twice !! tokenizer = Some t2 /\
    (forall x, x ∈ MARKER_TOKENS -> has_token t1 x) /\
    get_vocab t2 = get_vocab t1 /\
    length (get_vocab t2) = length (get_vocab t1) /\
    forall r : ref, r <> tokenizer -> snd twice !! r = h !! r.
Proof.
  intros Ht once twice.
  split; [reflexivity|]. split; [reflexivity|].
  exists (prepared t), (prepared (prepared t)).
  assert (Honce : snd once !! tokenizer = Some (prepared t)).
  { unfold once. now rewrite prepare_tokenizer_lookup, Ht. }
  split; [exact Honce|]. split.
  { unfold twice. change (fst once) with tokenizer.
    now rewrite prepare_tokenizer_lookup, Honce. }
  split; [apply prepared_has_markers|].
  split; [apply prepared_again|].
  split; [now rewrite prepared_again|].
  intros r Hr. unfold twice. change (fst once) with tokenizer.
  rewrite prepare_tokenizer_frame by exact Hr.
  unfold once. now apply prepare_tokenizer_frame.
Qed.

End Prepare.

(** * Further properties *)

(** ** The pixel tokens (utils.py:23) *)

Lemma digits_to_bracket_uint (d : Decimal.uint) :
  digits_to_bracket (NilEmpty.string_of_uint d +:+ "]") = Some d.
Proof. induction d; simpl; rewrite ?IHd; reflexivity. Qed.

Lemma digits_to_bracket_fill (k : nat) (s : string) (d : Decimal.uint) :
  digits_to_bracket (s +:+ "]") = Some d ->
  digits_to_bracket ((fill_string k "0" +:+ s) +:+ "]") = Some (Nat.iter k Decimal.D0 d).
Proof.
  intros Hs. induction k as [|k IH]; simpl.
  - exact Hs.
  - change ("" +:+ fill_string k "0") with (fill_string k "0").
    now rewrite IH.
Qed.

Lemma of_uint_leading_zeros (k : nat) (d : Decimal.uint) :
  Nat.of_uint (Nat.iter k Decimal.D0 d) = Nat.of_uint d.
Proof.
  induction k as [|k IH]; simpl; [reflexivity|].
  rewrite <- IH. reflexivity.
Qed.

(** Reading a pixel token back gives its index, whatever the index. *)
Lemma pixel_index_token (i : nat) : pixel_index (pixel_token i) = Some i.
Proof.
  unfold pixel_token, rjust, decimal. simpl.
  assert (Hd : exists d, digits_to_bracket
                 (NilZero.string_of_uint (Nat.to_uint i) +:+ "]") = Some d /\
               Nat.of_uint d = i).
  { destruct (Nat.to_uint i) as [| | | | | | | | | |] eqn:Hi;
      try (eexists; split;
           [ apply (digits_to_bracket_uint (_ _))
           | rewrite <- Hi; apply Unsigned.of_to ]).
    exists (Decimal.D0 Decimal.Nil). split; [reflexivity|].
    rewrite <- (Unsigned.of_to i), Hi. reflexivity. }
  destruct Hd as (d & Hd & Hi).
  match goal with
  | |- context [ "" +:+ ?x ] => change ("" +:+ x) with x
  end.
  rewrite (digits_to_bracket_fill _ _ _ Hd). simpl.
  now rewrite of_uint_leading_zeros, Hi.
Qed.

Lemma pixel_token_digits_below (n : nat) :
  forallb (fun i =>
             String.eqb (pixel_token i)
               (String "[" (String (digit (i / 100))
                  (String (digit (i / 10 mod 10))
                     (String (digit (i mod 10)) "]")))))
          (seq 0 n) = true ->
  forall i, i < n ->
    pixel_token i =
      String "[" (String (digit (i / 100))
        (String (digit (i / 10 mod 10)) (String (digit (i mod 10)) "]"))).
Proof.
  intros Hall i Hi. rewrite List.forallb_forall in Hall.
  apply String.eqb_eq, Hall, List.in_seq. lia.
Qed.

(** X1. Distinct colour indices give distinct pixel tokens: the token
    determines the index it was formatted from. *)
Theorem pixel_token_injective (i j : nat) :
  pixel_token i = pixel_token j -> i = j.
Proof.
  intros Heq. apply (f_equal pixel_index) in Heq.
  rewrite !pixel_index_token in Heq. now injection Heq.
Qed.

(** X2. For an index below 1000, hence for every colour below
    [NUM_COLORS], the pixel token is the five characters
    [[], hundreds digit, tens digit, units digit, []]: the index is
    zero-padded to three digits between brackets. *)
Theorem pixel_token_format (i : nat) :
  i < 1000 ->
  pixel_token i =
    String "[" (String (digit (i / 100))
      (String (digit (i / 10 mod 10)) (String (digit (i mod 10)) "]"))) /\
  String.length (pixel_token i) = 5.
Proof.
  intros Hi.
  assert (Hfmt := pixel_token_digits_below 1000 ltac:(vm_compute; reflexivity) i Hi).
  split; [exact Hfmt|]. rewrite Hfmt. reflexivity.
Qed.

(** X3. The tokens [prepare_tokenizer] registers are 516 pairwise
    distinct strings: the 512 pixel tokens, in the order of their
    indices, followed by the four structural tokens, none of which is a
    pixel token. *)
Theorem marker_tokens_distinct :
  length PIXEL_TOKENS = NUM_COLORS /\
  (forall i, i < NUM_COLORS -> PIXEL_TOKENS !! i = Some (pixel_token i)) /\
  length MARKER_TOKENS = 516 /\
  NoDup MARKER_TOKENS.
Proof.
  assert (Hlen : length PIXEL_TOKENS = NUM_COLORS).
  { unfold PIXEL_TOKENS. now rewrite length_map, length_seq. }
  split; [exact Hlen|]. split; [|split].
  - intros i Hi. unfold PIXEL_TOKENS.
    change (map pixel_token (seq 0 NUM_COLORS)) with (pixel_token <$> seq 0 NUM_COLORS).
    rewrite list_lookup_fmap, lookup_seq_lt by exact Hi. reflexivity.
  - unfold MARKER_TOKENS. rewrite length_app, Hlen. reflexivity.
  - unfold MARKER_TOKENS. apply NoDup_app. split; [|split].
    + unfold PIXEL_TOKENS.
      change (map pixel_token (seq 0 NUM_COLORS)) with (pixel_token <$> seq 0 NUM_COLORS).
      apply NoDup_fmap_2_strong; [|apply NoDup_seq].
      intros i j _ _ Heq. apply (f_equal pixel_index) in Heq.
      rewrite !pixel_index_token in Heq. now injection Heq.
    + intros x Hx Hs. unfold PIXEL_TOKENS in Hx.
      apply list_elem_of_In, List.in_map_iff in Hx as (i & <- & _).
      assert (Hidx := pixel_index_token i).
      repeat (apply elem_of_cons in Hs as [Hs|Hs];
              [rewrite Hs in Hidx; discriminate Hidx|]).
      now apply elem_of_nil in Hs.
    + repeat (apply NoDup_cons; split;
              [ intros Hin;
                repeat (apply elem_of_cons in Hin as [Hin|Hin]; [discriminate Hin|]);
                now apply elem_of_nil in Hin |]).
      apply NoDup_nil_2.
Qed.

(** [text.startswith(s)] for a text built by appending to [s]. *)
Lemma prefix_append (s rest : string) : String.prefix s (s +:+ rest) = true.
Proof.
  induction s as [|a s IH]; simpl.
  - now destruct rest.
  - destruct (Ascii.ascii_dec a a); [exact IH | contradiction].
Qed.

Section Further.
Context {G T : Type} `{RandomSource G} `{Tokenizer T}.
Variable tokenizer : T.
Variable p : float.

(** The iterations of a run, each with what it establishes. *)
Lemma runs_Forall2 pairs w its w' :
  runs tokenizer p pairs w its w' ->
  Forall2 (fun pair it => exists wi u wi',
             iteration_post tokenizer p (fst pair) (snd pair) wi u it wi')
          pairs its.
Proof.
  induction 1 as [w|image captions rest w it w1 its w' Hit _ IH]; constructor.
  - destruct (iteration_inv _ _ _ _ _ _ _ Hit) as [u Hpost]. simpl. eauto.
  - exact IH.
Qed.

(** The lists after the loop are the columns of the iterations. *)
Lemma loop_lists pairs w acc w' :
  loop tokenizer p pairs no_lists w = (Ok acc, w') ->
  exists its,
    runs tokenizer p pairs w its w' /\
    kinds acc = map kind its /\
    image_start_positions acc = map image_start_position its /\
    prompts acc = map prompt its.
Proof.
  intros Hloop. apply loop_runs in Hloop as (its & Hruns & ->).
  exists its. split; [exact Hruns|].
  now rewrite foldl_append_kinds, foldl_append_positions, foldl_append_prompts.
Qed.

Lemma loop_offsets_from_2 pairs w acc w' :
  loop tokenizer p pairs no_lists w = (Ok acc, w') ->
  Forall (fun s => 2 <= s) (image_start_positions acc).
Proof.
  intros Hloop. apply loop_lists in Hloop as (its & Hruns & _ & -> & _).
  apply runs_Forall2 in Hruns.
  induction Hruns as [|pair it pairs its (wi & u & wi' & [_ _ _ Hstart _]) _ IH];
    simpl; constructor; [|exact IH].
  destruct (coin_toss it).
  - destruct Hstart as (tokens & _ & ->). lia.
  - now rewrite Hstart.
Qed.

Lemma calls_of_iteration_events (u : float) (captions : Captions) (it : Iteration) :
  encoded_of (iteration_events u captions it) = [] /\
  choices_of (iteration_events u captions it) = option_list (sequence_of captions) /\
  tokenized_of (iteration_events u captions it) = option_list (tokenized_caption it).
Proof.
  unfold iteration_events, encoded_of, choices_of, tokenized_of, tokenized_caption.
  destruct captions, (coin_toss it); repeat split; reflexivity.
Qed.

(** The calls of a run of the loop: no batch call, one [choice] per
    sequence of captions, one [tokenize] per text-first iteration, in
    order. *)
Lemma runs_calls pairs w its w' :
  runs tokenizer p pairs w its w' ->
  encoded_of (events_since w w') = [] /\
  choices_of (events_since w w') = omap sequence_of (map snd pairs) /\
  tokenized_of (events_since w w') = omap tokenized_caption its /\
  map kind its =
    map (fun u => if (1 - p <? u)%float then 1%Z else 0%Z)
        (draws_of (events_since w w')).
Proof.
  induction 1 as [w|image captions rest w it w1 its w' Hit Hrest IH].
  - unfold events_since. rewrite drop_all. repeat split; reflexivity.
  - destruct (iteration_inv _ _ _ _ _ _ _ Hit) as [u [Hcoin _ _ _ Htr0]].
    destruct (runs_later _ _ _ _ _ _ Hrest) as [evs Hevs].
    rewrite (events_since_app w1 w' evs Hevs) in IH.
    rewrite (events_since_app w w' (iteration_events u captions it ++ evs))
      by (rewrite Hevs, Htr0; now rewrite <- app_assoc).
    destruct IH as (He & Hc & Ht & Hk).
    destruct (calls_of_iteration_events u captions it) as (He0 & Hc0 & Ht0).
    unfold encoded_of, choices_of, tokenized_of in *.
    rewrite draws_of_app, draws_of_iteration_events, !omap_app.
    rewrite He, Hc, Ht, He0, Hc0, Ht0. simpl.
    rewrite <- Hk. unfold kind at 1. rewrite Hcoin.
    repeat split.
    + now destruct captions.
    + unfold tokenized_caption. now destruct (coin_toss it).
Qed.

Lemma kinds_sum (its : list Iteration) :
  foldr Z.add 0%Z (map kind its) = Z.of_nat (length (omap tokenized_caption its)).
Proof.
  induction its as [|it its IH]; [reflexivity|].
  simpl. unfold kind at 1, tokenized_caption at 1.
  destruct (coin_toss it); simpl; rewrite IH; unfold omap; lia.
Qed.

(** Where an exception of the loop body comes from. *)
Lemma bind_Raise_inv {A B} (m : M G A) (k : A -> M G B) w e w' :
  bind m k w = (Raise e, w') ->
  m w = (Raise e, w') \/ exists a w1, m w = (Ok a, w1) /\ k a w1 = (Raise e, w').
Proof.
  unfold bind. destruct (m w) as [[a|e0] w1]; [eauto|].
  intros [= -> ->]. now left.
Qed.

Lemma iteration_Raise_inv image captions w e w' :
  iteration tokenizer p image captions w = (Raise e, w') ->
  exists evs ev, w_trace w' = w_trace w ++ evs ++ [ev] /\ raised_by tokenizer ev e.
Proof.
  unfold iteration. intros Hrun.
  apply bind_Raise_inv in Hrun as [Hu|(u & w1 & Hu & Hrun)].
  { unfold random in Hu. destruct (rng_random (w_rng w)). discriminate. }
  unfold random in Hu. destruct (rng_random (w_rng w)) as [u0 g1].
  injection Hu as -> <-.
  apply bind_Raise_inv in Hrun as [Hc|(c & w2 & Hc & Hrun)].
  { destruct captions as [s|l]; simpl in Hc; [discriminate|].
    unfold choice in Hc. simpl in Hc. destruct (rng_choice l g1) as [r g2].
    injection Hc as -> <-.
    exists [EvRandom u], (EvChoice l (Raise e)). split; [|reflexivity].
    simpl. now rewrite <- app_assoc. }
  assert (Htr2 : exists evs2, w_trace w2 = w_trace w ++ evs2).
  { destruct captions as [s|l]; simpl in Hc.
    - injection Hc as _ <-. now exists [EvRandom u].
    - unfold choice in Hc. simpl in Hc. destruct (rng_choice l g1) as [r g2].
      injection Hc as _ <-. exists [EvRandom u; EvChoice l r]. simpl.
      now rewrite <- app_assoc. }
  destruct Htr2 as [evs2 Htr2].
  apply bind_Raise_inv in Hrun as [Hs|(s & w3 & _ & Hret)]; [|discriminate].
  unfold compute_start in Hs. destruct (1 - p <? u)%float; [|discriminate].
  apply bind_Raise_inv in Hs as [Htok|(tokens & w4 & _ & Hret)]; [|discriminate].
  unfold lift in Htok. injection Htok as Htok <-.
  exists evs2, (EvTokenize c). split; [|exact Htok].
  unfold emit. simpl. rewrite Htr2. now rewrite <- app_assoc.
Qed.

Lemma loop_Raise_inv pairs acc w e w' :
  loop tokenizer p pairs acc w = (Raise e, w') ->
  exists evs ev, w_trace w' = w_trace w ++ evs ++ [ev] /\ raised_by tokenizer ev e.
Proof.
  revert acc w. induction pairs as [|[image captions] rest IH]; intros acc w; simpl.
  - discriminate.
  - intros Hrun. apply bind_Raise_inv in Hrun as [Hit|(it & w1 & Hit & Hrest)].
    + now apply iteration_Raise_inv in Hit.
    + apply IH in Hrest as (evs & ev & Htr & Hev).
      destruct (iteration_later _ _ _ _ _ _ _ Hit) as [evs0 Hevs0].
      exists (evs0 ++ evs), ev. split; [|exact Hev].
      rewrite Htr, Hevs0. now rewrite <- !app_assoc.
Qed.

(** The collater reads the world only through the generator. *)
Lemma trace_blind_ret {A} (a : A) : trace_blind (ret (G:=G) a).
Proof.
  intros w1 w2 Hg. unfold ret. simpl. repeat split; [exact Hg|].
  exists []. now rewrite !app_nil_r.
Qed.

Lemma trace_blind_raise {A} (e : exn) : trace_blind (raise (G:=G) (A:=A) e).
Proof.
  intros w1 w2 Hg. unfold raise. simpl. repeat split; [exact Hg|].
  exists []. now rewrite !app_nil_r.
Qed.

Lemma trace_blind_lift {A} (ev : event) (r : result A) : trace_blind (lift (G:=G) ev r).
Proof.
  intros w1 w2 Hg. unfold lift, emit. simpl. repeat split; [exact Hg|].
  now exists [ev].
Qed.

Lemma trace_blind_random : trace_blind random.
Proof.
  intros w1 w2 Hg. unfold random. rewrite Hg.
  destruct (rng_random (w_rng w2)) as [u g]. simpl. repeat split.
  now exists [EvRandom u].
Qed.

Lemma trace_blind_choice (options : list string) : trace_blind (choice options).
Proof.
  intros w1 w2 Hg. unfold choice. rewrite Hg.
  destruct (rng_choice options (w_rng w2)) as [r g]. simpl. repeat split.
  now exists [EvChoice options r].
Qed.

Lemma trace_blind_bind {A B} (m : M G A) (k : A -> M G B) :
  trace_blind m -> (forall a, trace_blind (k a)) -> trace_blind (bind m k).
Proof.
  intros Hm Hk w1 w2 Hg. unfold bind.
  destruct (Hm w1 w2 Hg) as (Hr & Hg' & evs & Ht1 & Ht2).
  destruct (m w1) as [r1 w1'], (m w2) as [r2 w2']. simpl in *. subst r2.
  destruct r1 as [a|e].
  - destruct (Hk a w1' w2' Hg') as (Hr2 & Hg2 & evs2 & Ht12 & Ht22).
    split; [exact Hr2|]. split; [exact Hg2|].
    exists (evs ++ evs2). rewrite Ht12, Ht22, Ht1, Ht2. now rewrite <- !app_assoc.
  - simpl. repeat split; [exact Hg'|]. now exists evs.
Qed.

Lemma trace_blind_iteration image captions :
  trace_blind (iteration tokenizer p image captions).
Proof.
  unfold iteration.
  apply trace_blind_bind; [apply trace_blind_random|]. intros u.
  apply trace_blind_bind.
  { destruct captions; [apply trace_blind_ret | apply trace_blind_choice]. }
  intros c. apply trace_blind_bind; [|intros s; apply trace_blind_ret].
  unfold compute_start. destruct (1 - p <? u)%float; [|apply trace_blind_ret].
  apply trace_blind_bind; [apply trace_blind_lift | intros; apply trace_blind_ret].
Qed.

Lemma trace_blind_loop pairs acc : trace_blind (loop tokenizer p pairs acc).
Proof.
  revert acc. induction pairs as [|[image captions] rest IH]; intros acc; simpl.
  - apply trace_blind_ret.
  - apply trace_blind_bind; [apply trace_blind_iteration | intros it; apply IH].
Qed.

Lemma trace_blind_collater features : trace_blind (_collater tokenizer p features).
Proof.
  unfold _collater. destruct (p_in_range p); simpl; [|apply trace_blind_raise].
  apply trace_blind_bind; [apply trace_blind_loop|]. intros acc.
  apply trace_blind_bind; [apply trace_blind_lift | intros; apply trace_blind_ret].
Qed.

(** The loop over two lists in a row. *)
Lemma loop_app pairs1 pairs2 acc w :
  loop tokenizer p (pairs1 ++ pairs2) acc w =
    bind (loop tokenizer p pairs1 acc) (loop tokenizer p pairs2) w.
Proof.
  revert acc w. induction pairs1 as [|[image captions] rest IH]; intros acc w; simpl.
  - reflexivity.
  - unfold bind.
    destruct (iteration tokenizer p image captions w) as [[it|e] w1]; [|reflexivity].
    rewrite IH. reflexivity.
Qed.

Lemma pairs_of_app (fs1 fs2 : list InputDataClass) :
  pairs_of (fs1 ++ fs2) = pairs_of fs1 ++ pairs_of fs2.
Proof.
  unfold pairs_of. induction fs1 as [|f fs1 IH]; simpl; [reflexivity|].
  now rewrite IH.
Qed.

(** The image reaches the prompt and nothing else. *)
Lemma iteration_other_image image1 image2 captions w it w' :
  iteration tokenizer p image1 captions w = (Ok it, w') ->
  exists it',
    iteration tokenizer p image2 captions w = (Ok it', w') /\
    kind it' = kind it /\
    image_start_position it' = image_start_position it /\
    caption it' = caption it.
Proof.
  unfold iteration. intros Hrun.
  apply bind_Ok_inv in Hrun as (u & w1 & Hu & Hrun).
  apply bind_Ok_inv in Hrun as (c & w2 & Hc & Hrun).
  apply bind_Ok_inv in Hrun as (s & w3 & Hs & Hrun).
  unfold ret in Hrun. injection Hrun as <- <-.
  eexists. split.
  - rewrite (bind_Ok _ _ _ _ _ Hu), (bind_Ok _ _ _ _ _ Hc), (bind_Ok _ _ _ _ _ Hs).
    reflexivity.
  - repeat split.
Qed.

Lemma runs_other_images pairs1 pairs2 w its w' :
  runs tokenizer p pairs1 w its w' ->
  map snd pairs1 = map snd pairs2 ->
  exists its',
    runs tokenizer p pairs2 w its' w' /\
    map kind its' = map kind its /\
    map image_start_position its' = map image_start_position its.
Proof.
  intros Hruns. revert pairs2.
  induction Hruns as [w|image captions rest w it w1 its w' Hit _ IH];
    intros [|[image2 captions2] rest2] Hsnd; simpl in Hsnd; try discriminate.
  - exists []. repeat split. constructor.
  - injection Hsnd as <- Hrest.
    destruct (iteration_other_image _ image2 _ _ _ _ Hit) as (it' & Hit' & Hk & Hs & _).
    destruct (IH _ Hrest) as (its' & Hruns' & Hks & Hss).
    exists (it' :: its'). split; [econstructor; eassumption|].
    simpl. now rewrite Hk, Hs, Hks, Hss.
Qed.

End Further.

Section FurtherClaims.
Context {G T : Type} `{RandomSource G} `{Tokenizer T}.
Variable tokenizer : T.

(** X4. The label and the prompt of an example agree: where [kinds]
    holds 1 the prompt begins with [[TextFirst]] and not with
    [[ImageFirst]], where it holds 0 the prompt begins with
    [[ImageFirst]] and not with [[TextFirst]]; no other label occurs. *)
Theorem kind_matches_prompt (p : float) (features : list InputDataClass)
    (w w' : world G) (acc : Lists) (i : nat) (k : Z) (text : string) :
  loop tokenizer p (pairs_of features) no_lists w = (Ok acc, w') ->
  kinds acc !! i = Some k ->
  prompts acc !! i = Some text ->
  (k = 1%Z /\ String.prefix "[TextFirst]" text = true /\
   String.prefix "[ImageFirst]" text = false)
  \/
  (k = 0%Z /\ String.prefix "[ImageFirst]" text = true /\
   String.prefix "[TextFirst]" text = false).
Proof.
  intros Hloop Hk Ht.
  apply loop_lists in Hloop as (its & Hruns & Hks & _ & Hps).
  rewrite Hks in Hk. rewrite Hps in Ht.
  change (map kind its) with (kind <$> its) in Hk.
  change (map prompt its) with (prompt <$> its) in Ht.
  rewrite list_lookup_fmap in Hk. rewrite list_lookup_fmap in Ht.
  destruct (its !! i) as [it|] eqn:Hit; [|discriminate].
  simpl in Hk, Ht. injection Hk as <-. injection Ht as <-.
  apply runs_Forall2 in Hruns.
  destruct (Forall2_lookup_r _ _ _ _ _ Hruns Hit)
    as (pair & _ & wi & u & wi' & [_ _ Hprompt _ _]).
  rewrite Hprompt. unfold kind, compose_prompt.
  destruct (coin_toss it); [left|right];
    (split; [reflexivity | split; [apply prefix_append | reflexivity]]).
Qed.

(** X5. In the batch of a successful call no row of [image_masks] is
    True in column 0 or 1 (the sequence-start token and the layout
    marker are never marked as image), and a row the tokenizer returned
    beyond the examples of the batch is False throughout. *)
Theorem mask_spares_leading_columns (p : float) (features : list InputDataClass)
    (w w' : world G) (batch : gmap string value) :
  _collater tokenizer p features w = (Ok batch, w') ->
  exists masks : tensor2 bool,
    batch !! "image_masks" = Some (BoolTensor2 masks) /\
    forall (i j : nat) (row : list bool),
      t_rows masks !! i = Some row ->
      row !! j = Some true ->
      2 <= j /\ i < length features.
Proof.
  intros Hrun.
  apply collater_inv in Hrun as (_ & acc & wl & enc & Hloop & _ & -> & ->).
  destruct (assemble_lookups acc enc) as (_ & _ & Hmasks & _).
  eexists. split; [exact Hmasks|].
  intros i j row Hrow Hj.
  pose proof (loop_offsets_from_2 _ _ _ _ _ _ Hloop) as Hge.
  destruct (loop_lengths _ _ _ _ _ _ Hloop) as (_ & Hlen & _).
  apply build_image_masks_row in Hrow as (_ & [(_ & ->)|(s & Hs & ->)]).
  - apply lookup_replicate_1 in Hj as [Hj _]. discriminate.
  - apply lookup_zero_row in Hj as (_ & Hspan).
    rewrite Forall_lookup in Hge. specialize (Hge _ _ Hs).
    apply lookup_lt_Some in Hs. lia.
Qed.

(** X6. In the batch of a successful call the True entries of every
    row of [image_masks] form one unbroken run of at most
    [IMAGE_LEN = 1024] columns. *)
Theorem mask_rows_contiguous (p : float) (features : list InputDataClass)
    (w w' : world G) (batch : gmap string value) :
  _collater tokenizer p features w = (Ok batch, w') ->
  exists masks : tensor2 bool,
    batch !! "image_masks" = Some (BoolTensor2 masks) /\
    forall (i : nat) (row : list bool),
      t_rows masks !! i = Some row ->
      true_count row <= 1024 /\
      forall j1 j2 j3 : nat,
        j1 <= j2 <= j3 ->
        row !! j1 = Some true -> row !! j3 = Some true -> row !! j2 = Some true.
Proof.
  intros Hrun.
  apply collater_inv in Hrun as (_ & acc & wl & enc & _ & _ & -> & ->).
  destruct (assemble_lookups acc enc) as (_ & _ & Hmasks & _).
  eexists. split; [exact Hmasks|].
  intros i row Hrow.
  apply build_image_masks_row in Hrow as (_ & [(_ & ->)|(s & Hs & ->)]).
  - split; [rewrite true_count_replicate; lia|].
    intros j1 j2 j3 _ Hj1. apply lookup_replicate_1 in Hj1 as [Hj1 _]. discriminate.
  - split.
    + rewrite true_count_slice_zeros. pose proof IMAGE_LEN_eq. lia.
    + intros j1 j2 j3 Hord Hj1 Hj3.
      apply lookup_zero_row in Hj1 as (_ & Hs1).
      apply lookup_zero_row in Hj3 as (Hw3 & Hs3).
      rewrite lookup_slice_assign by (rewrite length_replicate; lia).
      now rewrite bool_decide_eq_true_2 by lia.
Qed.

(** X7. What a successful call asks of its collaborators: the batch
    tokenizer call is made exactly once; [rng.choice] is called exactly
    on the captions that are sequences, in the order of the examples;
    [tokenizer.tokenize] is called once per text-first example, so the
    number of these calls is the sum of [kinds]. *)
Theorem collaborator_calls (p : float) (features : list InputDataClass)
    (w w' : world G) (batch : gmap string value) :
  _collater tokenizer p features w = (Ok batch, w') ->
  exists (ks : list Z) (ps : list string),
    batch !! "kinds" = Some (LongTensor1 ks) /\
    encoded_of (events_since w w') = [ps] /\
    choices_of (events_since w w') = omap sequence_of (map captions features) /\
    Z.of_nat (length (tokenized_of (events_since w w'))) = foldr Z.add 0%Z ks.
Proof.
  intros Hrun.
  apply collater_inv in Hrun as (_ & acc & wl & enc & Hloop & _ & -> & ->).
  destruct (assemble_lookups acc enc) as (_ & _ & _ & Hkinds).
  exists (kinds acc), (prompts acc). split; [exact Hkinds|].
  apply loop_lists in Hloop as (its & Hruns & Hks & _ & _).
  destruct (runs_calls _ _ _ _ _ _ Hruns) as (He & Hc & Ht & _).
  destruct (runs_later _ _ _ _ _ _ Hruns) as [evs Hevs].
  rewrite (events_since_app w wl evs Hevs) in He, Hc, Ht.
  rewrite (events_since_app w _ (evs ++ [EvBatchEncode (prompts acc)]))
    by (unfold emit; simpl; rewrite Hevs; now rewrite <- app_assoc).
  unfold encoded_of, choices_of, tokenized_of in *.
  rewrite !omap_app, He, Hc, Ht. simpl. rewrite !app_nil_r.
  split; [reflexivity|]. split.
  - unfold pairs_of. rewrite snd_zip; [reflexivity|]. now rewrite !length_map.
  - now rewrite Hks, kinds_sum.
Qed.

(** X8. A call fails in one of two ways only.  Either [p] is out of
    range, the exception is the assertion error and nothing has
    happened; or [p] is in range and the exception is the one raised by
    the last collaborator call of the trace ([rng.choice],
    [tokenizer.tokenize] or the batch tokenizer call), passed on
    unchanged, with no further call made after it. *)
Theorem failure_comes_from_last_call (p : float) (features : list InputDataClass)
    (w w' : world G) (e : exn) :
  _collater tokenizer p features w = (Raise e, w') ->
  (p_in_range p = false /\ e = AssertionError p /\ w' = w)
  \/
  (p_in_range p = true /\
   exists ev : event,
     last (events_since w w') = Some ev /\ raised_by tokenizer ev e).
Proof.
  unfold _collater. destruct (p_in_range p) eqn:Hp; simpl.
  - intros Hrun. right. split; [reflexivity|].
    fold (pairs_of features) in Hrun.
    apply bind_Raise_inv in Hrun as [Hloop|(acc & wl & Hloop & Hrun)].
    + apply loop_Raise_inv in Hloop as (evs & ev & Htr & Hev).
      exists ev. split; [|exact Hev].
      rewrite (events_since_app w w' (evs ++ [ev]) Htr). apply last_snoc.
    + apply bind_Raise_inv in Hrun as [Henc|(enc & we & _ & Hret)]; [|discriminate].
      unfold lift in Henc. injection Henc as Henc <-.
      exists (EvBatchEncode (prompts acc)). split; [|exact Henc].
      destruct (loop_runs _ _ _ _ _ _ _ Hloop) as (its & Hruns & _).
      destruct (runs_later _ _ _ _ _ _ Hruns) as [evs Hevs].
      rewrite (events_since_app w _ (evs ++ [EvBatchEncode (prompts acc)]))
        by (unfold emit; simpl; rewrite Hevs; now rewrite <- app_assoc).
      apply last_snoc.
  - unfold raise. intros [= <- <-]. now left.
Qed.

(** X9. On an empty batch with [p] in range the generator is not
    touched and the only call is the batch tokenizer call on the empty
    list; what that call raises is raised, and what it returns is
    stored with an empty [kinds] and an [image_masks] of the shape of
    its attention mask that is False throughout. *)
Theorem empty_batch (p : float) (w : world G) :
  p_in_range p = true ->
  exists r : result (gmap string value),
    _collater tokenizer p [] w = (r, World (w_rng w) (w_trace w ++ [EvBatchEncode []])) /\
    match batch_encode tokenizer [] with
    | Raise e => r = Raise e
    | Ok enc =>
        exists batch : gmap string value,
          r = Ok batch /\
          batch !! "input_ids" = Some (LongTensor2 (input_ids enc)) /\
          batch !! "attention_mask" = Some (LongTensor2 (attention_mask enc)) /\
          batch !! "kinds" = Some (LongTensor1 []) /\
          batch !! "image_masks" =
            Some (BoolTensor2 (zeros (shape (attention_mask enc))))
    end.
Proof.
  intros Hp. unfold _collater. rewrite Hp. simpl.
  unfold bind, ret, lift, emit. simpl.
  destruct (batch_encode tokenizer []) as [enc|e]; eexists; (split; [reflexivity|]).
  - eexists. split; [reflexivity|].
    destruct (assemble_lookups no_lists enc) as (Hids & Ham & Hmasks & Hkinds).
    repeat split; try assumption.
    rewrite Hmasks. unfold build_image_masks, zeros. simpl.
    now destruct (replicate _ _).
  - reflexivity.
Qed.

(** X10. [p = 1.0] does not force the text-first layout: the threshold
    [1.0 - p] is 0.0 and the comparison is strict, so [kinds] holds 1
    exactly for the draws above 0.0, and an example whose draw is 0.0
    is image-first. *)
Theorem p_one_zero_draw (features : list InputDataClass)
    (w w' : world G) (batch : gmap string value) :
  _collater tokenizer 1%float features w = (Ok batch, w') ->
  exists ks : list Z,
    batch !! "kinds" = Some (LongTensor1 ks) /\
    ks = map (fun u => if (0 <? u)%float then 1%Z else 0%Z)
             (draws_of (events_since w w')) /\
    forall i : nat,
      draws_of (events_since w w') !! i = Some 0%float -> ks !! i = Some 0%Z.
Proof.
  intros Hrun.
  apply collater_inv in Hrun as (_ & acc & wl & enc & Hloop & _ & -> & ->).
  destruct (assemble_lookups acc enc) as (_ & _ & _ & Hkinds).
  exists (kinds acc). split; [exact Hkinds|].
  apply loop_lists in Hloop as (its & Hruns & Hks & _ & _).
  destruct (runs_calls _ _ _ _ _ _ Hruns) as (_ & _ & _ & Hk).
  destruct (runs_later _ _ _ _ _ _ Hruns) as [evs Hevs].
  rewrite (events_since_app w wl evs Hevs) in Hk.
  rewrite (events_since_app w _ (evs ++ [EvBatchEncode (prompts acc)]))
    by (unfold emit; simpl; rewrite Hevs; now rewrite <- app_assoc).
  rewrite draws_of_app. simpl. rewrite app_nil_r.
  assert (Heq : kinds acc = map (fun u => if (0 <? u)%float then 1%Z else 0%Z)
                                (draws_of evs)).
  { rewrite Hks, Hk. reflexivity. }
  split; [exact Heq|].
  intros i Hi. rewrite Heq.
  change (map ?f ?l) with (f <$> l).
  rewrite list_lookup_fmap, Hi. reflexivity.
Qed.

(** X11. The images do not reach the decisions: two batches with the
    same captions, collated from the same world, get the same [kinds]
    and the same image start offsets and leave the generator and the
    record of [random], [choice] and [tokenize] calls in the same
    state.  In particular the loop never measures the image. *)
Theorem offsets_ignore_images (p : float) (features1 features2 : list InputDataClass)
    (w w' : world G) (acc1 : Lists) :
  map captions features1 = map captions features2 ->
  loop tokenizer p (pairs_of features1) no_lists w = (Ok acc1, w') ->
  exists acc2 : Lists,
    loop tokenizer p (pairs_of features2) no_lists w = (Ok acc2, w') /\
    kinds acc2 = kinds acc1 /\
    image_start_positions acc2 = image_start_positions acc1.
Proof.
  intros Hcaps Hloop.
  apply loop_lists in Hloop as (its & Hruns & Hks & Hss & _).
  destruct (runs_other_images _ _ _ (pairs_of features2) _ _ _ Hruns)
    as (its' & Hruns' & Hks' & Hss').
  { unfold pairs_of. rewrite !snd_zip by now rewrite !length_map.
    exact Hcaps. }
  exists (foldl append no_lists its'). split; [now apply runs_loop|].
  rewrite foldl_append_kinds, foldl_append_positions. simpl.
  now rewrite Hks, Hss, Hks', Hss'.
Qed.

(** X12. The generator is shared between calls and nothing else is:
    collating [features1] and then [features2] with the same collater
    gives the labels that collating [features1 ++ features2] at once
    gives, and leaves the generator in the same state. *)
Theorem batches_compose (p : float) (features1 features2 : list InputDataClass)
    (w w1 w2 w' : world G) (batch1 batch2 batch : gmap string value) :
  _collater tokenizer p features1 w = (Ok batch1, w1) ->
  _collater tokenizer p features2 w1 = (Ok batch2, w2) ->
  _collater tokenizer p (features1 ++ features2) w = (Ok batch, w') ->
  exists ks1 ks2 : list Z,
    batch1 !! "kinds" = Some (LongTensor1 ks1) /\
    batch2 !! "kinds" = Some (LongTensor1 ks2) /\
    batch !! "kinds" = Some (LongTensor1 (ks1 ++ ks2)) /\
    w_rng w' = w_rng w2.
Proof.
  intros H1 H2 H12.
  apply collater_inv in H1 as (_ & acc1 & wl1 & enc1 & Hloop1 & _ & -> & ->).
  apply collater_inv in H2 as (_ & acc2 & wl2 & enc2 & Hloop2 & _ & -> & ->).
  apply collater_inv in H12 as (_ & acc & wl & enc & Hloop & _ & -> & ->).
  destruct (assemble_lookups acc1 enc1) as (_ & _ & _ & Hk1).
  destruct (assemble_lookups acc2 enc2) as (_ & _ & _ & Hk2).
  destruct (assemble_lookups acc enc) as (_ & _ & _ & Hk).
  exists (kinds acc1), (kinds acc2).
  split; [exact Hk1|]. split; [exact Hk2|].
  rewrite pairs_of_app, loop_app, (bind_Ok _ _ _ _ _ Hloop1) in Hloop.
  apply loop_runs in Hloop as (its & Hruns & ->).
  pose proof (runs_loop _ _ _ _ _ _ no_lists Hruns) as Hfresh.
  destruct (trace_blind_loop tokenizer p (pairs_of features2) no_lists wl1
              (emit wl1 (w_rng wl1) (EvBatchEncode (prompts acc1))) eq_refl)
    as (Hres & Hrng & _).
  rewrite Hfresh, Hloop2 in Hres, Hrng. simpl in Hres, Hrng.
  injection Hres as Hacc2.
  split.
  - rewrite Hk, foldl_append_kinds, <- Hacc2, foldl_append_kinds. reflexivity.
  - simpl. exact Hrng.
Qed.

End FurtherClaims.

(** * The executable instance at work *)

Module DemoRuns.
Import Demo.

(** ** The constants *)

Example pixel_tokens_ends :
  length PIXEL_TOKENS = 512 /\
  PIXEL_TOKENS !! 0 = Some "[000]" /\
  PIXEL_TOKENS !! 45 = Some "[045]" /\
  PIXEL_TOKENS !! 511 = Some "[511]".
Proof. repeat split; vm_compute; reflexivity. Qed.

(** ** The demo tokenizer keeps the promises about [add_tokens] *)

Lemma vocab_keys (added : list string) : (get_vocab added).*1 = added.
Proof.
  simpl. apply fst_zip. now rewrite length_map, length_seq.
Qed.

Lemma has_token_vocab (added : list string) (x : string) :
  has_token added x <-> x ∈ added.
Proof. unfold has_token. now rewrite vocab_keys. Qed.

Lemma register_keeps (acc : list string) (y x : string) :
  x ∈ acc -> x ∈ register acc y.
Proof.
  unfold register. case_bool_decide; [easy|].
  intros Hx. apply elem_of_app. now left.
Qed.

Lemma register_adds (acc : list string) (x : string) : x ∈ register acc x.
Proof.
  unfold register. case_bool_decide; [easy|].
  apply elem_of_app. right. now apply list_elem_of_singleton.
Qed.

Lemma add_tokens_keeps (ts added : list string) (x : string) :
  x ∈ added -> x ∈ add_tokens ts added.
Proof.
  simpl. revert added. induction ts as [|y ts IH]; intros added Hx; simpl.
  - exact Hx.
  - apply IH. now apply register_keeps.
Qed.

Lemma add_tokens_registers (ts added : list string) (x : string) :
  x ∈ ts -> x ∈ add_tokens ts added.
Proof.
  simpl. revert added. induction ts as [|y ts IH]; intros added Hx; simpl.
  - now apply elem_of_nil in Hx.
  - apply elem_of_cons in Hx as [->|Hx].
    + apply (add_tokens_keeps ts). apply register_adds.
    + now apply IH.
Qed.

Lemma add_tokens_present (ts added : list string) :
  (forall x, x ∈ ts -> x ∈ added) -> add_tokens ts added = added.
Proof.
  simpl. induction ts as [|y ts IH]; intros Hall; simpl.
  - reflexivity.
  - unfold register at 2. rewrite bool_decide_eq_true_2.
    + apply IH. intros x Hx. apply Hall. now right.
    + apply Hall. now left.
Qed.

Lemma encode_batch_shapes (added texts : list string) (enc : BatchEncoding) :
  batch_encode added texts = Ok enc ->
  shape (input_ids enc) = shape (attention_mask enc).
Proof.
  simpl. intros [= <-]. unfold encode_batch, shape. simpl.
  now rewrite !length_map.
Qed.

(** ** The two batches *)

Example full_rows :
  shape (input_ids full_encoding) = (2, 1032) /\
  shape (attention_mask full_encoding) = (2, 1032) /\
  map real_length (t_rows (attention_mask full_encoding)) = [1030; 1032]%Z /\
  (t_rows (build_image_masks (shape (attention_mask full_encoding))
                             (image_start_positions full_lists)))
    = [replicate 2 false ++ replicate 1024 true ++ replicate 6 false;
       replicate 8 false ++ replicate 1024 true].
Proof. repeat split; vm_compute; reflexivity. Qed.

Example padded_rows :
  encoding1 =
    {| input_ids :=
         Tensor2 10 [[2; 50271; 50267; 50268; 50274; 103; 101; 120; 1; 1];
                     [2; 50272; 101; 36; 104; 115; 107; 50273; 50265; 50269]]%Z;
       attention_mask :=
         Tensor2 10 [[1; 1; 1; 1; 1; 1; 1; 1; 0; 0];
                     [1; 1; 1; 1; 1; 1; 1; 1; 1; 1]]%Z |} /\
  t_rows (build_image_masks (shape (attention_mask encoding1))
                            (image_start_positions lists1))
    = [[false; false; true; true; true; true; true; true; true; true];
       [false; false; false; false; false; false; false; false; true; true]].
Proof. split; vm_compute; reflexivity. Qed.

Example short_rows :
  fst (_collater tok 0%float short_features short_world0)
  = Ok (assemble ∅ short_lists (encode_batch tok (prompts short_lists))) /\
  t_rows (build_image_masks (shape (attention_mask
            (encode_batch tok (prompts short_lists))))
            (image_start_positions short_lists))
  = [[false; false; true; true; true; true; true; true];
     [false; false; true; true; true; true; true; true]].
Proof. split; vm_compute; reflexivity. Qed.

(** Preparing the empty demo tokenizer registers the 516 marker tokens;
    preparing it again changes nothing. *)
Example prepared_vocabulary :
  length (get_vocab (prepared ([] : list string))) = 516 /\
  prepared (prepared ([] : list string)) = prepared [].
Proof. split; vm_compute; reflexivity. Qed.

(** The assertion also rejects a [p] that is not a number. *)
Example nan_rejected :
  _collater tok nan features world0 = (Raise (AssertionError nan), world0).
Proof. apply collater_rejects. reflexivity. Qed.

(** ** The claims on the demo batches *)

Lemma image_start_offset_witness :
  exists c : string,
    resolved (captions dog) c /\
    ((prompts lists1 !! 1 = Some (compose_prompt false (palette_images dog) c) /\
      kinds lists1 !! 1 = Some 0%Z /\
      image_start_positions lists1 !! 1 = Some 2)
     \/
     (prompts lists1 !! 1 = Some (compose_prompt true (palette_images dog) c) /\
      kinds lists1 !! 1 = Some 1%Z /\
      exists tokens : list string,
        tokenize tok c = Ok tokens /\
        image_start_positions lists1 !! 1 = Some (3 + length tokens))).
Proof.
  apply (image_start_offset tok 0.5%float features world0 world1 lists1 1 dog).
  - vm_compute. reflexivity.
  - reflexivity.
Defined.

Lemma image_mask_span_witness :
  exists (acc : Lists) (wl : world script) (am : tensor2 Z) (masks : tensor2 bool),
    loop tok 0.5%float (pairs_of full_features) no_lists world0 = (Ok acc, wl) /\
    length (image_start_positions acc) = length full_features /\
    full_batch !! "attention_mask" = Some (LongTensor2 am) /\
    full_batch !! "image_masks" = Some (BoolTensor2 masks) /\
    shape masks = shape am /\
    (forall i : nat, i < length (t_rows am) ->
       exists row : list bool,
         t_rows masks !! i = Some row /\ length row = t_cols am) /\
    (forall (i : nat) (row : list bool),
       t_rows masks !! i = Some row ->
       image_start_positions acc !! i = None ->
       row = replicate (t_cols am) false) /\
    forall (i s : nat) (row : list bool),
      image_start_positions acc !! i = Some s ->
      t_rows masks !! i = Some row ->
      (forall j : nat, j < length row ->
         row !! j = Some (bool_decide (s <= j < s + IMAGE_LEN))) /\
      (forall am_row : list Z,
         t_rows am !! i = Some am_row ->
         length am_row = t_cols am ->
         Forall (fun x => x = 0%Z \/ x = 1%Z) am_row ->
         (Z.of_nat (s + 1024) <= real_length am_row)%Z ->
         true_count row = IMAGE_LEN /\ IMAGE_LEN = 1024).
Proof.
  apply (image_mask_span tok 0.5%float full_features world0 full_world full_batch).
  vm_compute. reflexivity.
Defined.

Lemma p_zero_all_image_first_witness :
  Forall (fun u => (1 - 0 <? u)%float = false)
         (draws_of (events_since world0 world3)) /\
  batch0 !! "kinds" = Some (LongTensor1 (replicate (length features) 0%Z)).
Proof.
  apply (p_zero_all_image_first tok features world0 world3 batch0).
  - vm_compute. reflexivity.
  - vm_compute. repeat constructor.
Defined.

Lemma p_out_of_range_raises_witness :
  _collater tok 1.5%float features world0 = (Raise (AssertionError 1.5), world0) /\
  _collater tok (-0.5)%float features world0 = (Raise (AssertionError (-0.5)), world0).
Proof.
  split.
  - apply (p_out_of_range_raises tok 1.5%float features world0).
    right. reflexivity.
  - apply (p_out_of_range_raises tok (-0.5)%float features world0).
    left. reflexivity.
Defined.

Lemma prompt_layout_witness :
  exists (u : float) (c : string),
    let is_text_first := (1 - 0.5 <? u)%float in
    draws_of (events_since world0 world1) !! 1 = Some u /\
    u ∈ draws_of (events_since world0 world1) /\
    resolved (captions dog) c /\
    kinds lists1 !! 1 = Some (if is_text_first then 1%Z else 0%Z) /\
    prompts lists1 !! 1 =
      Some (if is_text_first
            then "[TextFirst]" +:+ c +:+ "[Image]" +:+ palette_images dog
            else "[ImageFirst]" +:+ palette_images dog +:+ "[Text]" +:+ c).
Proof.
  apply (prompt_layout tok 0.5%float features world0 world1 lists1 1 dog).
  - vm_compute. reflexivity.
  - reflexivity.
Defined.

Lemma caption_resolution_witness :
  exists (u : float) (c : string) (before after : list event),
    let is_text_first := (1 - 0.5 <? u)%float in
    events_since world0 world1 =
      before
      ++ (EvRandom u
          :: match captions dog with
             | CaptionStr _ => []
             | CaptionList l => [EvChoice l (Ok c)]
             end
          ++ (if is_text_first then [EvTokenize c] else []))
      ++ after /\
    length (draws_of before) = 1 /\
    match captions dog with
    | CaptionStr s => c = s
    | CaptionList l => exists g : script, fst (rng_choice l g) = Ok c
    end /\
    prompts lists1 !! 1 = Some (compose_prompt is_text_first (palette_images dog) c) /\
    if is_text_first
    then exists tokens : list string,
           tokenize tok c = Ok tokens /\
           image_start_positions lists1 !! 1 = Some (3 + length tokens)
    else image_start_positions lists1 !! 1 = Some 2.
Proof.
  apply (caption_resolution tok 0.5%float features world0 world1 lists1 1 dog).
  - vm_compute. reflexivity.
  - reflexivity.
Defined.

Lemma examples_in_order_witness :
  exists (ks : list Z) (ps : list string) (offsets : list nat)
         (enc : BatchEncoding) (masks : tensor2 bool) (wl : world script),
    loop tok 0.5%float (pairs_of features) no_lists world0 =
      (Ok {| kinds := ks; image_start_positions := offsets; prompts := ps |}, wl) /\
    length ks = length features /\
    length ps = length features /\
    length offsets = length features /\
    Forall (fun k => k = 0%Z \/ k = 1%Z) ks /\
    batch_encode tok ps = Ok enc /\
    last (w_trace world2) = Some (EvBatchEncode ps) /\
    batch1 !! "input_ids" = Some (LongTensor2 (input_ids enc)) /\
    batch1 !! "attention_mask" = Some (LongTensor2 (attention_mask enc)) /\
    batch1 !! "image_masks" = Some (BoolTensor2 masks) /\
    batch1 !! "kinds" = Some (LongTensor1 ks) /\
    length (draws_of (events_since world0 world2)) = length features /\
    shape masks = shape (attention_mask enc) /\
    (forall (i : nat) (row : list bool),
       t_rows masks !! i = Some row -> length features <= i ->
       row = replicate (t_cols (attention_mask enc)) false) /\
    forall (i : nat) (ex : InputDataClass),
      features !! i = Some ex ->
      exists (u : float) (c : string) (s : nat),
        let is_text_first := (1 - 0.5 <? u)%float in
        draws_of (events_since world0 world2) !! i = Some u /\
        resolved (captions ex) c /\
        ks !! i = Some (if is_text_first then 1%Z else 0%Z) /\
        ps !! i = Some (compose_prompt is_text_first (palette_images ex) c) /\
        offsets !! i = Some s /\
        (if is_text_first
         then exists tokens : list string,
                tokenize tok c = Ok tokens /\ s = 3 + length tokens
         else s = 2) /\
        (i < length (t_rows (attention_mask enc)) ->
         t_rows masks !! i =
           Some (slice_assign (replicate (t_cols (attention_mask enc)) false)
                              s (s + IMAGE_LEN) true)).
Proof.
  apply (examples_in_order tok 0.5%float features world0 world2 batch1).
  vm_compute. reflexivity.
Defined.

Lemma image_mask_within_bounds_witness :
  exists (batch : gmap string value) (w' : world script) (masks : tensor2 bool),
    let enc := encode_batch tok (prompts short_lists) in
    let width := t_cols (attention_mask enc) in
    _collater tok 0%float short_features short_world0 = (Ok batch, w') /\
    batch !! "image_masks" = Some (BoolTensor2 masks) /\
    shape masks = shape (attention_mask enc) /\
    tensor_wf masks /\
    forall (i s : nat) (row : list bool),
      image_start_positions short_lists !! i = Some s ->
      t_rows masks !! i = Some row ->
      length row = width /\
      true_count row = ((s + IMAGE_LEN) `min` width) - (s `min` width) /\
      (width < s + IMAGE_LEN -> true_count row < 1024) /\
      (width <= s -> true_count row = 0) /\
      (forall j : nat, row !! j = Some true ->
                       j < width /\ s <= j < s + IMAGE_LEN).
Proof.
  apply (image_mask_within_bounds tok 0%float short_features
           short_world0 short_world1 short_lists
           (encode_batch tok (prompts short_lists))).
  - reflexivity.
  - vm_compute. reflexivity.
  - reflexivity.
Defined.

Lemma batch_record_shape_witness :
  p_in_range 0.5 = true /\
  dom batch1 = ({["input_ids"; "attention_mask"; "image_masks"; "kinds"]} : gset string) /\
  exists (ids am : tensor2 Z) (masks : tensor2 bool) (ks : list Z),
    batch1 !! "input_ids" = Some (LongTensor2 ids) /\
    batch1 !! "attention_mask" = Some (LongTensor2 am) /\
    batch1 !! "image_masks" = Some (BoolTensor2 masks) /\
    batch1 !! "kinds" = Some (LongTensor1 ks) /\
    shape masks = shape am /\
    shape masks = shape ids /\
    tensor_wf masks /\
    length ks = length features.
Proof.
  apply (batch_record_shape tok 0.5%float features world0 world2 batch1).
  - apply encode_batch_shapes.
  - vm_compute. reflexivity.
Defined.

Lemma prepare_tokenizer_idempotent_witness :
  let h : gmap ref (list string) := {[ 0 := [] ]} in
  let once := prepare_tokenizer 0 h in
  let twice := prepare_tokenizer (fst once) (snd once) in
  fst once = 0 /\ fst twice = 0 /\
  exists t1 t2 : list string,
    snd once !! 0 = Some t1 /\
    snd twice !! 0 = Some t2 /\
    (forall x, x ∈ MARKER_TOKENS -> has_token t1 x) /\
    get_vocab t2 = get_vocab t1 /\
    length (get_vocab t2) = length (get_vocab t1) /\
    forall r : ref, r <> 0 -> snd twice !! r = ({[ 0 := [] ]} : gmap ref (list string)) !! r.
Proof.
  apply (prepare_tokenizer_idempotent
           (fun ts t Hall =>
              f_equal get_vocab
                (add_tokens_present ts t
                   (fun x Hx => proj1 (has_token_vocab t x) (Hall x Hx))))
           (fun ts t x Hx =>
              proj2 (has_token_vocab _ x) (add_tokens_registers ts t x Hx))
           (fun ts t x Hx =>
              proj2 (has_token_vocab _ x)
                (add_tokens_keeps ts t x (proj1 (has_token_vocab t x) Hx)))
           0 {[ 0 := [] ]} []).
  reflexivity.
Defined.

End DemoRuns.

(** * The further properties on the demo batches *)

Module MoreRuns.
Import Demo.

Lemma pixel_token_injective_witness : 45 = 45.
Proof. apply (pixel_token_injective 45 45). reflexivity. Defined.

Lemma pixel_token_format_witness :
  pixel_token 45 = "[045]" /\ String.length (pixel_token 45) = 5.
Proof. apply (pixel_token_format 45). lia. Defined.

Lemma kind_matches_prompt_witness :
  (1%Z = 1%Z /\
   String.prefix "[TextFirst]" "[TextFirst]a dog[Image][003][099]" = true /\
   String.prefix "[ImageFirst]" "[TextFirst]a dog[Image][003][099]" = false)
  \/
  (1%Z = 0%Z /\
   String.prefix "[ImageFirst]" "[TextFirst]a dog[Image][003][099]" = true /\
   String.prefix "[TextFirst]" "[TextFirst]a dog[Image][003][099]" = false).
Proof.
  apply (kind_matches_prompt tok 0.5%float features world0 world1 lists1 1).
  - vm_compute. reflexivity.
  - reflexivity.
  - reflexivity.
Defined.

Lemma mask_spares_leading_columns_witness :
  exists masks : tensor2 bool,
    batch1 !! "image_masks" = Some (BoolTensor2 masks) /\
    forall (i j : nat) (row : list bool),
      t_rows masks !! i = Some row ->
      row !! j = Some true ->
      2 <= j /\ i < length features.
Proof.
  apply (mask_spares_leading_columns tok 0.5%float features world0 world2 batch1).
  vm_compute. reflexivity.
Defined.

Lemma mask_rows_contiguous_witness :
  exists masks : tensor2 bool,
    batch1 !! "image_masks" = Some (BoolTensor2 masks) /\
    forall (i : nat) (row : list bool),
      t_rows masks !! i = Some row ->
      true_count row <= 1024 /\
      forall j1 j2 j3 : nat,
        j1 <= j2 <= j3 ->
        row !! j1 = Some true -> row !! j3 = Some true -> row !! j2 = Some true.
Proof.
  apply (mask_rows_contiguous tok 0.5%float features world0 world2 batch1).
  vm_compute. reflexivity.
Defined.

Lemma collaborator_calls_witness :
  exists (ks : list Z) (ps : list string),
    batch1 !! "kinds" = Some (LongTensor1 ks) /\
    encoded_of (events_since world0 world2) = [ps] /\
    choices_of (events_since world0 world2) = omap sequence_of (map captions features) /\
    Z.of_nat (length (tokenized_of (events_since world0 world2))) = foldr Z.add 0%Z ks.
Proof.
  apply (collaborator_calls tok 0.5%float features world0 world2 batch1).
  vm_compute. reflexivity.
Defined.

Lemma failure_comes_from_last_call_witness :
  (p_in_range 0.5 = false /\
   Foreign "ValueError" = AssertionError 0.5 /\ bad_world = world0)
  \/
  (p_in_range 0.5 = true /\
   exists ev : event,
     last (events_since world0 bad_world) = Some ev /\
     raised_by tok ev (Foreign "ValueError")).
Proof.
  apply (failure_comes_from_last_call tok 0.5%float bad_features world0 bad_world).
  vm_compute. reflexivity.
Defined.

Lemma empty_batch_witness :
  exists r : result (gmap string value),
    _collater tok 0.5%float [] world0
      = (r, World (w_rng world0) (w_trace world0 ++ [EvBatchEncode []])) /\
    match batch_encode tok [] with
    | Raise e => r = Raise e
    | Ok enc =>
        exists batch : gmap string value,
          r = Ok batch /\
          batch !! "input_ids" = Some (LongTensor2 (input_ids enc)) /\
          batch !! "attention_mask" = Some (LongTensor2 (attention_mask enc)) /\
          batch !! "kinds" = Some (LongTensor1 []) /\
          batch !! "image_masks" =
            Some (BoolTensor2 (zeros (shape (attention_mask enc))))
    end.
Proof. apply (empty_batch tok 0.5%float world0). reflexivity. Defined.

Lemma p_one_zero_draw_witness :
  exists ks : list Z,
    batch1 !! "kinds" = Some (LongTensor1 ks) /\
    ks = map (fun u => if (0 <? u)%float then 1%Z else 0%Z)
             (draws_of (events_since zero_draw_world0 zero_draw_world1)) /\
    forall i : nat,
      draws_of (events_since zero_draw_world0 zero_draw_world1) !! i = Some 0%float ->
      ks !! i = Some 0%Z.
Proof.
  apply (p_one_zero_draw tok features zero_draw_world0 zero_draw_world1 batch1).
  vm_compute. reflexivity.
Defined.

Lemma offsets_ignore_images_witness :
  exists acc2 : Lists,
    loop tok 0.5%float (pairs_of full_features) no_lists world0 = (Ok acc2, world1) /\
    kinds acc2 = kinds lists1 /\
    image_start_positions acc2 = image_start_positions lists1.
Proof.
  apply (offsets_ignore_images tok 0.5%float features full_features world0 world1 lists1).
  - reflexivity.
  - vm_compute. reflexivity.
Defined.

Lemma batches_compose_witness :
  exists ks1 ks2 : list Z,
    batch_cat !! "kinds" = Some (LongTensor1 ks1) /\
    batch_dog !! "kinds" = Some (LongTensor1 ks2) /\
    batch1 !! "kinds" = Some (LongTensor1 (ks1 ++ ks2)) /\
    w_rng world2 = w_rng (snd run_dog).
Proof.
  apply (batches_compose tok 0.5%float [cat] [dog] world0 (snd run_cat) (snd run_dog)
           world2 batch_cat batch_dog batch1).
  - vm_compute. reflexivity.
  - vm_compute. reflexivity.
  - vm_compute. reflexivity.
Defined.

Lemma collater_succeeds_witness :
  exists batch w', _collater tok 0.5%float features world0 = (Ok batch, w').
Proof.
  apply (collater_succeeds tok 0.5%float features world0).
  - reflexivity.
  - intros s. eexists. reflexivity.
  - intros texts. eexists. reflexivity.
  - intros l g Hl. vm_compute in Hl.
    apply elem_of_cons in Hl as [Hl|Hl]; [discriminate Hl|].
    apply elem_of_cons in Hl as [Hl|Hl]; [|now apply elem_of_nil in Hl].
    injection Hl as ->. eexists. reflexivity.
Defined.

End MoreRuns.
